(** * Microstrip, stepped low-pass filter and resonator calculators

    A shallow embedding of the numeric core of the three scripts
    [microstrip_analysis.py], [lpf_design.py] and [resonator_analysis.py].

    Python floats and numpy scalars are modelled by the real numbers they
    approximate, so every statement below is about the exact arithmetic of
    the formulas; rounding and the finite range of doubles are not part of
    the model.  A Python exception of the arithmetic on reals is an explicit
    [Raise]; [OverflowError], which a Python float power raises when its
    result leaves the range of doubles, has no counterpart.  When an
    intermediate value stops being a finite real (numpy yields nan or inf, or
    Python yields a complex power) the model stops following the execution
    and answers [OutOfReals].

    Module [Binary64] replays one computation, the resonant frequency of the
    resonator, on IEEE 754 doubles. *)

From Stdlib Require Import Reals Lra Lia ZArith List Psatz.
From Stdlib Require Import Machin.
From Stdlib Require Floats.
Import ListNotations.
Open Scope R_scope.

(** ** Outcomes of a call *)

(** [ZeroDivisionError] and [IndexError] are the exceptions the arithmetic and
    the list indexing of the scripts can raise.  [InvalidGeometry],
    [InvalidFrequency] and [UnsupportedOrder] are the error kinds named by the
    specification; no statement of the scripts raises them. *)
Inductive exn : Type :=
| ZeroDivisionError
| IndexError
| InvalidGeometry
| InvalidFrequency
| UnsupportedOrder.

Inductive outcome (A : Type) : Type :=
| Ret (a : A)
| Raise (e : exn)
| OutOfReals.

Arguments Ret {A} a.
Arguments Raise {A} e.
Arguments OutOfReals {A}.

Definition bind {A B : Type} (m : outcome A) (k : A -> outcome B) : outcome B :=
  match m with
  | Ret a => k a
  | Raise e => Raise e
  | OutOfReals => OutOfReals
  end.

Notation "x <- m ;; k" := (bind m (fun x => k))
  (at level 61, m at next level, right associativity).

Fixpoint mapM {A B : Type} (f : A -> outcome B) (l : list A) : outcome (list B) :=
  match l with
  | [] => Ret []
  | a :: l' => b <- f a ;; bs <- mapM f l' ;; Ret (b :: bs)
  end.

(** ** Arithmetic primitives *)

(** [x / y] on Python floats: raises on a zero divisor. *)
Definition py_div (x y : R) : outcome R :=
  if Req_dec_T y 0 then Raise ZeroDivisionError else Ret (x / y).

(** [x / y] where an operand is a numpy scalar: a zero divisor gives inf or
    nan with a warning, no exception. *)
Definition np_div (x y : R) : outcome R :=
  if Req_dec_T y 0 then OutOfReals else Ret (x / y).

(** [x ** (-0.5)] on a Python float: a zero base raises, a negative base
    yields a complex number. *)
Definition py_pow_neg_half (x : R) : outcome R :=
  if Req_dec_T x 0 then Raise ZeroDivisionError
  else if Rlt_dec x 0 then OutOfReals
  else Ret (Rpower x (-0.5)).

(** [np.sqrt]: nan below zero. *)
Definition np_sqrt (x : R) : outcome R :=
  if Rlt_dec x 0 then OutOfReals else Ret (sqrt x).

(** [np.log]: -inf at zero, nan below. *)
Definition np_log (x : R) : outcome R :=
  if Rle_dec x 0 then OutOfReals else Ret (ln x).

(** [scipy.constants.c], the speed of light in m/s. *)
Definition constants_c : R := 299792458.

(** [lst[i]] on a Python list: negative indices count from the end, an index
    outside the list raises [IndexError]. *)
Definition py_getitem {A : Type} (l : list A) (i : Z) : outcome A :=
  let len := Z.of_nat (length l) in
  let j := if (i <? 0)%Z then (len + i)%Z else i in
  if (j <? 0)%Z then Raise IndexError
  else match nth_error l (Z.to_nat j) with
       | Some a => Ret a
       | None => Raise IndexError
       end.

(** [range(a, b)]. *)
Definition py_range (a b : Z) : list Z :=
  map (fun k => (a + Z.of_nat k)%Z) (seq 0 (Z.to_nat (b - a))).

(** [np.linspace(start, stop, num)]: [num] evenly spaced samples, both ends
    included. *)
Definition np_linspace (start stop : R) (num : nat) : list R :=
  match num with
  | O => []
  | S O => [start]
  | S (S _) =>
      let step := (stop - start) / INR (num - 1) in
      map (fun k => start + INR k * step) (seq 0 num)
  end.

(** ** Complex numbers, as numpy's [complex128] over the reals *)

Record C : Type := mkC { Re : R; Im : R }.

Definition RtoC (x : R) : C := mkC x 0.
Definition Ci : C := mkC 0 1.
Definition Cadd (a b : C) : C := mkC (Re a + Re b) (Im a + Im b).
Definition Csub (a b : C) : C := mkC (Re a - Re b) (Im a - Im b).
Definition Cmul (a b : C) : C :=
  mkC (Re a * Re b - Im a * Im b) (Re a * Im b + Im a * Re b).
Definition Cneg (a : C) : C := mkC (- Re a) (- Im a).
Definition Cnorm2 (a : C) : R := Re a * Re a + Im a * Im a.
Definition Cmod (a : C) : R := sqrt (Cnorm2 a).
Definition Cexp (a : C) : C := mkC (exp (Re a) * cos (Im a)) (exp (Re a) * sin (Im a)).

(** Complex division; a zero divisor gives nan entries in numpy. *)
Definition Cdiv (a b : C) : outcome C :=
  if Req_dec_T (Cnorm2 b) 0 then OutOfReals
  else Ret (mkC ((Re a * Re b + Im a * Im b) / Cnorm2 b)
                ((Im a * Re b - Re a * Im b) / Cnorm2 b)).

(** ** microstrip_analysis.py *)

Module Microstrip.

(** The attributes of a [MicrostripAnalysis] object.  [eff_er] and [Z0] do not
    exist after [__init__]; [calc_microstrip_params] assigns them.  [None]
    stands for an attribute that is unset or holds no finite real. *)
Record MicrostripAnalysis : Type := mkMicrostripAnalysis {
  er : R;
  h : R;
  tand : R;
  f : list R;
  c : R;
  eff_er : option R;
  Z0 : option R
}.

(** [__init__(er, h, tand, f_range)]. *)
Definition init (er h tand : R) (f_range : R * R * nat) : MicrostripAnalysis :=
  let '(f0, f1, num) := f_range in
  mkMicrostripAnalysis er h tand (np_linspace f0 f1 num) constants_c None None.

(** [MicrostripAnalysis()] with the default arguments. *)
Definition default : MicrostripAnalysis :=
  init 4.4 1.6e-3 0.025 (1e9, 10e9, 1000%nat).

Definition set_eff_er (self : MicrostripAnalysis) (v : option R) : MicrostripAnalysis :=
  mkMicrostripAnalysis (er self) (h self) (tand self) (f self) (c self) v (Z0 self).

Definition set_Z0 (self : MicrostripAnalysis) (v : option R) : MicrostripAnalysis :=
  mkMicrostripAnalysis (er self) (h self) (tand self) (f self) (c self) (eff_er self) v.

(** Lines 17-20: the effective permittivity.  The square of line 20 is the
    real square: in doubles [(1 - w/h)**2] raises [OverflowError] once
    [|w/h|] passes about 1.3e154, which the model does not follow. *)
Definition effective_permittivity (er h w : R) : outcome R :=
  r <- py_div w h ;;
  if Rle_dec 1 r then
    q <- py_div (12 * h) w ;;
    p <- py_pow_neg_half (1 + q) ;;
    Ret ((er + 1) / 2 + (er - 1) / 2 * p)
  else
    q <- py_div (12 * h) w ;;
    p <- py_pow_neg_half (1 + q) ;;
    r' <- py_div w h ;;
    Ret ((er + 1) / 2 + (er - 1) / 2 * (p + 0.04 * (1 - r') ^ 2)).

(** Lines 23-26: the characteristic impedance from [self.eff_er]. *)
Definition characteristic_impedance (h w eff : R) : outcome R :=
  r <- py_div w h ;;
  if Rle_dec 1 r then
    s <- np_sqrt eff ;;
    r1 <- py_div w h ;;
    r2 <- py_div w h ;;
    l <- np_log (r2 + 1.444) ;;
    np_div (120 * PI) (s * (r1 + 1.393 + 0.667 * l))
  else
    s <- np_sqrt eff ;;
    a <- np_div 60 s ;;
    q <- py_div (8 * h) w ;;
    q' <- py_div w (4 * h) ;;
    l <- np_log (q + q') ;;
    Ret (a * l).

(** [calc_microstrip_params(self, w)]: the returned pair [(Z0, eff_er)] and
    the object after the call. *)
Definition calc_microstrip_params (self : MicrostripAnalysis) (w : R)
  : outcome (R * R) * MicrostripAnalysis :=
  match effective_permittivity (er self) (h self) w with
  | Ret e =>
      let self1 := set_eff_er self (Some e) in
      match characteristic_impedance (h self1) w e with
      | Ret z => (Ret (z, e), set_Z0 self1 (Some z))
      | Raise x => (Raise x, self1)
      | OutOfReals => (OutOfReals, set_Z0 self1 None)
      end
  | Raise x => (Raise x, self)
  | OutOfReals => (OutOfReals, set_Z0 (set_eff_er self None) None)
  end.

(** Line 39: the conductor loss term [8.686 * 0.1 * np.sqrt(self.f)] at one
    frequency sample. *)
Definition conductor_loss (fi : R) : outcome R :=
  s <- np_sqrt fi ;;
  Ret (8.686 * 0.1 * s).

(** Lines 35-43 at one frequency sample: the phase constant [beta] and the
    propagation constant [gamma = alpha + 1j*beta]. *)
Definition phase_constant (self : MicrostripAnalysis) (eff fi : R) : outcome R :=
  s <- np_sqrt eff ;;
  np_div (2 * PI * fi * s) (c self).

Definition propagation_constant (self : MicrostripAnalysis) (eff fi : R) : outcome C :=
  beta <- phase_constant self eff fi ;;
  s <- np_sqrt eff ;;
  alpha_d <- np_div (PI * fi * s * tand self) (c self) ;;
  alpha_c <- conductor_loss fi ;;
  let alpha := alpha_d + alpha_c in
  Ret (Cadd (RtoC alpha) (Cmul Ci (RtoC beta))).

(** Lines 46-55 at one frequency sample: the pair [(S11, S21)]. *)
Definition line_sample (self : MicrostripAnalysis)
  (Z0 eff length fi : R) : outcome (C * C) :=
  gamma <- propagation_constant self eff fi ;;
  let Z_ref := 50 in
  rho <- np_div (Z0 - Z_ref) (Z0 + Z_ref) ;;
  let exp_gl := Cexp (Cmul (Cneg gamma) (RtoC length)) in
  let den := Csub (RtoC 1) (Cmul (RtoC (rho ^ 2)) (Cmul exp_gl exp_gl)) in
  S11 <- Cdiv (Cmul (RtoC rho) (Csub (RtoC 1) (Cmul exp_gl exp_gl))) den ;;
  S21 <- Cdiv (Cmul exp_gl (RtoC (1 - rho ^ 2))) den ;;
  Ret (S11, S21).

Definition sample_fst (s : outcome (C * C)) : outcome C := x <- s ;; Ret (fst x).
Definition sample_snd (s : outcome (C * C)) : outcome C := x <- s ;; Ret (snd x).

(** The value returned by [calc_s_parameters]: four arrays aligned with
    [self.f], whose entries are [OutOfReals] where numpy holds nan or inf,
    and [Z0]. *)
Definition s_parameters : Type :=
  (list (outcome C) * list (outcome C) * list (outcome C) * list (outcome C) * R)%type.

(** [calc_s_parameters(self, w, length)]. *)
Definition calc_s_parameters (self : MicrostripAnalysis) (w length : R)
  : outcome s_parameters * MicrostripAnalysis :=
  match calc_microstrip_params self w with
  | (Ret (Z0, eff), self') =>
      let samples := map (line_sample self' Z0 eff length) (f self') in
      let S11 := map sample_fst samples in
      let S21 := map sample_snd samples in
      let S12 := S21 in
      let S22 := S11 in
      (Ret (S11, S21, S12, S22, Z0), self')
  | (Raise x, self') => (Raise x, self')
  | (OutOfReals, self') => (OutOfReals, self')
  end.

(** A sequence of calls [calc_microstrip_params(w)] on one object; the
    results are dropped, the object is kept. *)
Fixpoint after_calls (self : MicrostripAnalysis) (ws : list R) : MicrostripAnalysis :=
  match ws with
  | [] => self
  | w :: ws' => after_calls (snd (calc_microstrip_params self w)) ws'
  end.

(** Line 109 at one sample: [np.abs(S11)**2 + np.abs(S21)**2]. *)
Definition power_sample (s11 s21 : outcome C) : outcome R :=
  a <- s11 ;;
  b <- s21 ;;
  Ret (Cmod a ^ 2 + Cmod b ^ 2).

(** [analyze_lossless(self, w, length)]: the returned [power_sum] array and
    the object after the call; the figure is not modelled. *)
Definition analyze_lossless (self : MicrostripAnalysis) (w length : R)
  : outcome (list (outcome R)) * MicrostripAnalysis :=
  match calc_s_parameters self w length with
  | (Ret (S11, S21, _, _, _), self') =>
      (Ret (map (fun p => power_sample (fst p) (snd p)) (combine S11 S21)), self')
  | (Raise x, self') => (Raise x, self')
  | (OutOfReals, self') => (OutOfReals, self')
  end.

End Microstrip.

(** ** lpf_design.py *)

Module LPF.

Record LPFDesign : Type := mkLPFDesign {
  er : R;
  h : R;
  tand : R;
  c : R;
  Z0 : R
}.

(** [__init__(er, h, tand)]; the system impedance is fixed at 50 ohm. *)
Definition init (er h tand : R) : LPFDesign :=
  mkLPFDesign er h tand constants_c 50.

(** [LPFDesign()] with the default arguments. *)
Definition default : LPFDesign := init 4.4 1.6e-3 0.025.

(** [calc_microstrip_width(self, Z_target)]. *)
Definition calc_microstrip_width (self : LPFDesign) (Z_target : R) : outcome R :=
  if Rlt_dec Z_target 44 then
    l1 <- np_log (PI / 2) ;;
    l2 <- np_log (4 / PI) ;;
    let w_h := 2 / PI * (er self - 1) * l1 + (1 / PI) * l2 in
    Ret (w_h * h self)
  else
    s <- np_sqrt ((er self + 1) / 2) ;;
    q <- py_div (er self - 1) (er self + 1) ;;
    q' <- py_div 0.11 (er self) ;;
    let A := Z_target * s / 60 + q * (0.23 + q') in
    w_h <- np_div (8 * exp A) (exp (2 * A) - 2) ;;
    Ret (w_h * h self).

(** The dictionary returned by [design_stepped_lpf]. *)
Record Design : Type := mkDesign {
  Z_high : list R;
  Z_low : list R;
  widths_high : list R;
  widths_low : list R;
  section_length : R;
  lambda_g : R
}.

(** Chebyshev prototype values for n=5, 0.1dB ripple. *)
Definition g : list R := [1.0; 0.6180; 1.6180; 2.0000; 1.6180; 0.6180; 1.0].

(** Lines 34-40: one iteration of the loop, on the accumulators
    [(Z_high, Z_low)]. *)
Definition lpf_step (self : LPFDesign) (acc : list R * list R) (i : Z)
  : outcome (list R * list R) :=
  let '(Zh, Zl) := acc in
  if (i mod 2 =? 1)%Z then
    gi <- py_getitem g i ;;
    s <- np_sqrt (1 + gi * (PI / 2) * (Z0 self / 50)) ;;
    let Z_h := Z0 self * s in
    Ret (Zh ++ [Z_h], Zl)
  else
    gi <- py_getitem g i ;;
    q <- py_div 50 (Z0 self) ;;
    s <- np_sqrt (1 + gi * (PI / 2) * q) ;;
    Z_l <- np_div (Z0 self) s ;;
    Ret (Zh, Zl ++ [Z_l]).

Fixpoint lpf_loop (self : LPFDesign) (acc : list R * list R) (idx : list Z)
  : outcome (list R * list R) :=
  match idx with
  | [] => Ret acc
  | i :: idx' => acc' <- lpf_step self acc i ;; lpf_loop self acc' idx'
  end.

(** [design_stepped_lpf(self, fc, n)]. *)
Definition design_stepped_lpf (self : LPFDesign) (fc : R) (n : Z) : outcome Design :=
  Zs <- lpf_loop self ([], []) (py_range 1 (n + 1)) ;;
  let '(Zh, Zl) := Zs in
  s <- np_sqrt (er self) ;;
  lam <- np_div (c self) (fc * s) ;;
  let sec := lam / 8 in
  wh <- mapM (calc_microstrip_width self) Zh ;;
  wl <- mapM (calc_microstrip_width self) Zl ;;
  Ret (mkDesign Zh Zl wh wl sec lam).

(** The sections of a design as [print_design_summary] pairs them: each
    impedance with its width, high-impedance sections first. *)
Definition sections (d : Design) : list (R * R) :=
  combine (Z_high d) (widths_high d) ++ combine (Z_low d) (widths_low d).

(** Lines 70-73 at one frequency sample: the factor of a high-impedance
    section, [2*Z0 / (Z_h + 1j*XL + 2*Z0)]. *)
Definition high_section (self : LPFDesign) (Z_h fi : R) : outcome C :=
  let XL := 2 * PI * fi * 1e-9 in
  let Z_series := Cadd (RtoC Z_h) (Cmul Ci (RtoC XL)) in
  Cdiv (RtoC (2 * Z0 self)) (Cadd Z_series (RtoC (2 * Z0 self))).

(** Lines 78-81 at one frequency sample: the factor of a low-impedance
    section, [1 / (1 + (1/Z_l + 1j/XC) * Z0 / 2)]. *)
Definition low_section (self : LPFDesign) (Z_l fi : R) : outcome C :=
  XC <- np_div (-1) (2 * PI * fi * 1e-12) ;;
  a <- np_div 1 Z_l ;;
  b <- Cdiv Ci (RtoC XC) ;;
  let Y_shunt := Cadd (RtoC a) b in
  y <- Cdiv (Cmul Y_shunt (RtoC (Z0 self))) (RtoC 2) ;;
  Cdiv (RtoC 1) (Cadd (RtoC 1) y).

(** One of the two loops, at one sample: [S21_total *= S21_section] for each
    impedance of the list in turn. *)
Fixpoint apply_sections (section : R -> outcome C) (Zs : list R) (S21_total : C)
  : outcome C :=
  match Zs with
  | [] => Ret S21_total
  | Z :: Zs' =>
      S21_section <- section Z ;;
      apply_sections section Zs' (Cmul S21_total S21_section)
  end.

(** [S21_total] at one frequency sample, from [np.ones] through both loops. *)
Definition lpf_sample (self : LPFDesign) (design_params : Design) (fi : R) : outcome C :=
  t <- apply_sections (fun Z => high_section self Z fi) (Z_high design_params) (RtoC 1) ;;
  apply_sections (fun Z => low_section self Z fi) (Z_low design_params) t.

(** [calc_lpf_response(self, design_params, f_range)], returning
    [(f, S11, S21_total)]. *)
Definition calc_lpf_response (self : LPFDesign) (design_params : Design)
  (f_range : R * R * nat) : list R * list (outcome C) * list (outcome C) :=
  let '(f0, f1, num) := f_range in
  let f := np_linspace f0 f1 num in
  let S21_total := map (lpf_sample self design_params) f in
  let S11 := map (fun s => t <- s ;; Ret (Csub (RtoC 1) t)) S21_total in
  (f, S11, S21_total).

End LPF.

(** ** resonator_analysis.py *)

Module Resonator.

Record ResonatorAnalysis : Type := mkResonatorAnalysis {
  er : R;
  h : R;
  tand : R;
  c : R
}.

Definition init (er h tand : R) : ResonatorAnalysis :=
  mkResonatorAnalysis er h tand constants_c.

Definition default : ResonatorAnalysis := init 4.4 1.6e-3 0.025.

(** [calc_resonator_length(self, f_res, w)], returning [(length, eff_er)]. *)
Definition calc_resonator_length (self : ResonatorAnalysis) (f_res w : R)
  : outcome (R * R) :=
  q <- py_div (12 * h self) w ;;
  p <- py_pow_neg_half (1 + q) ;;
  let eff_er := (er self + 1) / 2 + (er self - 1) / 2 * p in
  s <- np_sqrt eff_er ;;
  lambda_g <- np_div (c self) (f_res * s) ;;
  let length := lambda_g / 4 in
  Ret (length, eff_er).

(** The combined quality factor, [1/(1/Q_ext + 1/Q_int)]. *)
Definition Q_total : R := 1 / (1 / 100 + 1 / 1000).

(** Lines 41-45 at one frequency sample: the pair [(S11, S21)]. *)
Definition resonator_sample (k f_res fi : R) : outcome (C * C) :=
  delta <- np_div (fi - f_res) f_res ;;
  let jQd := Cmul (Cmul Ci (RtoC Q_total)) (RtoC delta) in
  S11 <- Cdiv jQd (Cadd (RtoC 1) jQd) ;;
  S21 <- Cdiv (RtoC k) (Cadd (RtoC 1) jQd) ;;
  Ret (S11, S21).

(** The tuple [(f, S11, S21, f_res, length)]. *)
Definition resonator_result : Type :=
  (list R * list (outcome C) * list (outcome C) * R * R)%type.

(** [calc_resonator_s_params(self, d, g, w, f_range)]. *)
Definition calc_resonator_s_params (self : ResonatorAnalysis) (d g w : R)
  (f_range : R * R * nat) : outcome resonator_result :=
  let '(f0, f1, num) := f_range in
  let f := np_linspace f0 f1 num in
  q <- py_div (- g) (h self) ;;
  let k := 0.1 * exp q in
  lw <- calc_resonator_length self 5e9 w ;;
  let '(length, eff_er) := lw in
  s <- np_sqrt eff_er ;;
  f_res <- np_div (c self) (4 * length * s) ;;
  let samples := map (resonator_sample k f_res) f in
  let S11 := map Microstrip.sample_fst samples in
  let S21 := map Microstrip.sample_snd samples in
  Ret (f, S11, S21, f_res, length).

(** The coupling coefficient [k = 0.1 * exp(-g/h)]. *)
Definition coupling (self : ResonatorAnalysis) (g : R) : R :=
  0.1 * exp (- g / h self).

(** [find_resonator_dimensions_8ghz(self)], returning [(d_opt, g_opt, length)];
    the printed lines are not modelled. *)
Definition find_resonator_dimensions_8ghz (self : ResonatorAnalysis)
  : outcome (R * R * R) :=
  let target_freq := 8e9 in
  lw <- calc_resonator_length self target_freq 1e-3 ;;
  let '(length, eff_er) := lw in
  let d_opt := length in
  let g_opt := 0.1e-3 in
  Ret (d_opt, g_opt, length).

End Resonator.

(** ** The resonant frequency in binary64

    The one computation of the scripts whose result is claimed as an exact
    value, replayed on IEEE 754 doubles: every operation below rounds to
    nearest even, as Python floats and numpy scalars do. *)

Module Binary64.
Import PrimFloat.
Local Open Scope float_scope.
#[local] Set Warnings "-inexact-float".

Record ResonatorAnalysis : Type := mkResonatorAnalysis {
  er : float;
  h : float;
  tand : float;
  c : float
}.

Definition init (er h tand : float) : ResonatorAnalysis :=
  mkResonatorAnalysis er h tand 299792458.

Definition default : ResonatorAnalysis := init 4.4 1.6e-3 0.025.

(** [x ** (-0.5)] is a call of the C library's [pow], whose last bit IEEE 754
    does not fix: the result is the double [1/sqrt(x)] or one of its two
    neighbours. *)
Definition reciprocal_sqrt (x : float) : float := 1 / sqrt x.

Definition pow_neg_half_roundings : list (float -> float) :=
  [ (fun x => next_down (reciprocal_sqrt x));
    reciprocal_sqrt;
    (fun x => next_up (reciprocal_sqrt x)) ].

(** [calc_resonator_length(self, f_res, w)], lines 16-22. *)
Definition calc_resonator_length (pow_neg_half : float -> float)
  (self : ResonatorAnalysis) (f_res w : float) : float * float :=
  let eff_er :=
    (er self + 1) / 2 + (er self - 1) / 2 * pow_neg_half (1 + 12 * h self / w) in
  let lambda_g := c self / (f_res * sqrt eff_er) in
  let length := lambda_g / 4 in
  (length, eff_er).

(** Lines 37-38 of [calc_resonator_s_params]: the pair [(f_res, length)] of
    the returned tuple. *)
Definition resonant_frequency (pow_neg_half : float -> float)
  (self : ResonatorAnalysis) (w : float) : float * float :=
  let '(length, eff_er) := calc_resonator_length pow_neg_half self 5e9 w in
  let f_res := c self / (4 * length * sqrt eff_er) in
  (f_res, length).

(** The 5 GHz nominal and the double just below it. *)
Definition nominal : float := 5e9.
Definition below_nominal : float := 4999999999.999999.

(** A width of 0.7 mm. *)
Definition w_0_7_mm : float := 0.7e-3.

End Binary64.

(** ** The formulas of the specification, section 4.1

    Written from the specification's text, to be compared with
    [Microstrip.calc_microstrip_params]. *)

Module Hammerstad.

Definition eff_er_wide (er h w : R) : R :=
  (er + 1) / 2 + (er - 1) / 2 * / sqrt (1 + 12 * h / w).

Definition Z0_wide (er h w : R) : R :=
  120 * PI / (sqrt (eff_er_wide er h w) * (w / h + 1.393 + 0.667 * ln (w / h + 1.444))).

Definition eff_er_narrow (er h w : R) : R :=
  (er + 1) / 2 + (er - 1) / 2 * (/ sqrt (1 + 12 * h / w) + 0.04 * (1 - w / h) ^ 2).

Definition Z0_narrow (er h w : R) : R :=
  60 / sqrt (eff_er_narrow er h w) * ln (8 * h / w + w / (4 * h)).

End Hammerstad.

(** What a call returns, as a function of the substrate and the width only. *)
Definition params_of (er h w : R) : outcome (R * R) :=
  e <- Microstrip.effective_permittivity er h w ;;
  z <- Microstrip.characteristic_impedance h w e ;;
  Ret (z, e).

(** ** A matched line

    The permittivity for which a line as wide as the 1.6 mm substrate is high
    has a characteristic impedance of exactly 50 ohm (about 9.4), obtained by
    solving the wide-line formulas for [er]. *)
Definition matched_er : R :=
  let w := 1.6e-3 in
  let h := 1.6e-3 in
  let p := / sqrt (1 + 12 * h / w) in
  let D := w / h + 1.393 + 0.667 * ln (w / h + 1.444) in
  let E := 120 * PI / (50 * D) in
  (2 * (E * E) - 1 + p) / (1 + p).

(** A loss-free substrate of that permittivity, swept from 1 to 10 GHz. *)
Definition matched_line : Microstrip.MicrostripAnalysis :=
  Microstrip.init matched_er 1.6e-3 0 (1e9, 10e9, 10%nat).

(** ** The formulas of the specification, section 4.2

    The impedances of a high-impedance and of a low-impedance section for a
    prototype coefficient [gi], written from the specification's text. *)

Module Stepped.

Definition Z_high (Z0 gi : R) : R := Z0 * sqrt (1 + gi * (PI / 2) * (Z0 / 50)).

Definition Z_low (Z0 gi : R) : R := Z0 / sqrt (1 + gi * (PI / 2) * (50 / Z0)).

(** The number of odd and of even indices in [1..n]. *)
Definition odd_count (n : Z) : nat := Z.to_nat ((n + 1) / 2).
Definition even_count (n : Z) : nat := Z.to_nat (n / 2).

(** The test of line 35, and the table entry [g[i]] at an index inside the
    table. *)
Definition is_odd (i : Z) : bool := (i mod 2 =? 1)%Z.
Definition g_at (i : Z) : R := nth (Z.to_nat i) LPF.g 0.

(** The impedance lists the loop builds from the indices [1..n]. *)
Definition high_impedances (n : Z) : list R :=
  map (fun i => Z_high 50 (g_at i)) (filter is_odd (py_range 1 (n + 1))).
Definition low_impedances (n : Z) : list R :=
  map (fun i => Z_low 50 (g_at i)) (filter (fun i => negb (is_odd i)) (py_range 1 (n + 1))).

End Stepped.

(** ** The two branches of [calc_microstrip_width] in closed form *)

Module Width.

(** The exponent [A] of the branch [Z_target >= 44]. *)
Definition A (er Z : R) : R :=
  Z * sqrt ((er + 1) / 2) / 60 + (er - 1) / (er + 1) * (0.23 + 0.11 / er).

(** The width returned when [Z_target >= 44]. *)
Definition narrow (er h Z : R) : R :=
  8 * exp (A er Z) / (exp (2 * A er Z) - 2) * h.

(** The width returned when [Z_target < 44]: [Z_target] does not occur. *)
Definition wide (er h : R) : R :=
  (2 / PI * (er - 1) * ln (PI / 2) + (1 / PI) * ln (4 / PI)) * h.

End Width.

(** ** Exceptions

    A computation whose only possible exception is [ZeroDivisionError]. *)
Definition raises_only_zero_division {A : Type} (m : outcome A) : Prop :=
  forall e, m = Raise e -> e = ZeroDivisionError.

(** ** The propagation constant of one sample, in closed form

    [alpha_of] is the sum of lines 38 and 39, [beta_of] is line 35. *)
Definition alpha_of (self : Microstrip.MicrostripAnalysis) (eff fi : R) : R :=
  PI * fi * sqrt eff * Microstrip.tand self / Microstrip.c self + 8.686 * 0.1 * sqrt fi.
Definition beta_of (self : Microstrip.MicrostripAnalysis) (eff fi : R) : R :=
  2 * PI * fi * sqrt eff / Microstrip.c self.

(** ** The power transmitted by the sections of [calc_lpf_response]

    [|S21_section|^2] of a high-impedance and of a low-impedance section at
    the system impedance of 50 ohm, and their product over a design. *)

Module Response.

Definition high_power (Z_h fi : R) : R :=
  (2 * 50) ^ 2 / ((Z_h + 2 * 50) ^ 2 + (2 * PI * fi * 1e-9) ^ 2).

Definition low_power (Z_l fi : R) : R :=
  1 / ((1 + 50 / (2 * Z_l)) ^ 2 + (50 * (2 * PI * fi * 1e-12) / 2) ^ 2).

Definition product (P : R -> R) (Zs : list R) : R :=
  fold_right (fun Z p => P Z * p) 1 Zs.

Definition power (d : LPF.Design) (fi : R) : R :=
  product (fun Z => high_power Z fi) (LPF.Z_high d) *
  product (fun Z => low_power Z fi) (LPF.Z_low d).

End Response.

(** ** The design of [question_9]

    The value of [LPFDesign().design_stepped_lpf(fc=3e9, n=5)]. *)
Definition question_9_design : LPF.Design :=
  LPF.mkDesign
    (Stepped.high_impedances 5) (Stepped.low_impedances 5)
    (map (Width.narrow 4.4 1.6e-3) (Stepped.high_impedances 5))
    (map (fun _ => Width.wide 4.4 1.6e-3) (Stepped.low_impedances 5))
    (constants_c / (3e9 * sqrt 4.4) / 8) (constants_c / (3e9 * sqrt 4.4)).

(** * Properties *)

(** ** The primitives on their regular domain *)

Section Primitives.

Lemma bind_Ret {A B : Type} (a : A) (k : A -> outcome B) :
  (x <- Ret a ;; k x) = k a.
Proof. reflexivity. Qed.

Lemma py_div_nz (x y : R) : y <> 0 -> py_div x y = Ret (x / y).
Proof. intros Hy. unfold py_div. destruct (Req_dec_T y 0); [contradiction | reflexivity]. Qed.

Lemma py_div_zero (x : R) : py_div x 0 = Raise ZeroDivisionError.
Proof. unfold py_div. destruct (Req_dec_T 0 0) as [_ | n]; [reflexivity | now elim n]. Qed.

Lemma np_div_nz (x y : R) : y <> 0 -> np_div x y = Ret (x / y).
Proof. intros Hy. unfold np_div. destruct (Req_dec_T y 0); [contradiction | reflexivity]. Qed.

Lemma Rpower_neg_half (x : R) : 0 < x -> Rpower x (-0.5) = / sqrt x.
Proof.
  intros Hx.
  replace (-0.5) with (- / 2) by lra.
  rewrite Rpower_Ropp, Rpower_sqrt by assumption.
  reflexivity.
Qed.

Lemma py_pow_neg_half_pos (x : R) : 0 < x -> py_pow_neg_half x = Ret (/ sqrt x).
Proof.
  intros Hx. unfold py_pow_neg_half.
  destruct (Req_dec_T x 0); [lra |].
  destruct (Rlt_dec x 0); [lra |].
  now rewrite Rpower_neg_half.
Qed.

Lemma np_sqrt_nonneg (x : R) : 0 <= x -> np_sqrt x = Ret (sqrt x).
Proof. intros Hx. unfold np_sqrt. destruct (Rlt_dec x 0); [lra | reflexivity]. Qed.

Lemma np_log_pos (x : R) : 0 < x -> np_log x = Ret (ln x).
Proof. intros Hx. unfold np_log. destruct (Rle_dec x 0); [lra | reflexivity]. Qed.

Lemma Cdiv_nz (a b : C) :
  Cnorm2 b <> 0 ->
  Cdiv a b = Ret (mkC ((Re a * Re b + Im a * Im b) / Cnorm2 b)
                      ((Im a * Re b - Re a * Im b) / Cnorm2 b)).
Proof. intros Hb. unfold Cdiv. destruct (Req_dec_T (Cnorm2 b) 0); [contradiction | reflexivity]. Qed.

End Primitives.

(** ** The forward microstrip formulas *)

Section Forward.

Variables er h w : R.
Hypothesis Hw : 0 < w.
Hypothesis Hh : 0 < h.
Hypothesis Her : 1 < er.

Lemma ratio_pos : 0 < w / h.
Proof. apply Rdiv_lt_0_compat; assumption. Qed.

Lemma base_pos : 0 < 1 + 12 * h / w.
Proof.
  assert (0 < 12 * h / w) by (apply Rdiv_lt_0_compat; lra).
  lra.
Qed.

Lemma inv_sqrt_base_pos : 0 < / sqrt (1 + 12 * h / w).
Proof. apply Rinv_0_lt_compat, sqrt_lt_R0, base_pos. Qed.

Lemma eff_er_wide_gt_1 : 1 < Hammerstad.eff_er_wide er h w.
Proof.
  unfold Hammerstad.eff_er_wide.
  pose proof inv_sqrt_base_pos as Hp.
  assert (0 <= (er - 1) / 2 * / sqrt (1 + 12 * h / w)) by (apply Rmult_le_pos; lra).
  lra.
Qed.

Lemma eff_er_narrow_gt_1 : 1 < Hammerstad.eff_er_narrow er h w.
Proof.
  unfold Hammerstad.eff_er_narrow.
  pose proof inv_sqrt_base_pos as Hp.
  pose proof (pow2_ge_0 (1 - w / h)) as Hsq.
  assert (0 <= (er - 1) / 2 * (/ sqrt (1 + 12 * h / w) + 0.04 * (1 - w / h) ^ 2))
    by (apply Rmult_le_pos; lra).
  lra.
Qed.

Lemma effective_permittivity_wide :
  1 <= w / h ->
  Microstrip.effective_permittivity er h w = Ret (Hammerstad.eff_er_wide er h w).
Proof.
  intros Hr. unfold Microstrip.effective_permittivity.
  rewrite py_div_nz by lra. cbn [bind].
  destruct (Rle_dec 1 (w / h)); [| contradiction].
  rewrite py_div_nz by lra. cbn [bind].
  rewrite py_pow_neg_half_pos by apply base_pos.
  reflexivity.
Qed.

Lemma effective_permittivity_narrow :
  w / h < 1 ->
  Microstrip.effective_permittivity er h w = Ret (Hammerstad.eff_er_narrow er h w).
Proof.
  intros Hr. unfold Microstrip.effective_permittivity.
  rewrite py_div_nz by lra. cbn [bind].
  destruct (Rle_dec 1 (w / h)); [lra |].
  rewrite py_div_nz by lra. cbn [bind].
  rewrite py_pow_neg_half_pos by apply base_pos.
  reflexivity.
Qed.

Lemma characteristic_impedance_wide (eff : R) :
  1 <= w / h -> 0 < eff ->
  Microstrip.characteristic_impedance h w eff =
  Ret (120 * PI / (sqrt eff * (w / h + 1.393 + 0.667 * ln (w / h + 1.444)))).
Proof.
  intros Hr He. unfold Microstrip.characteristic_impedance.
  rewrite py_div_nz by lra. cbn [bind].
  destruct (Rle_dec 1 (w / h)); [| contradiction].
  rewrite np_sqrt_nonneg by lra. cbn [bind].
  rewrite np_log_pos by lra. cbn [bind].
  apply np_div_nz.
  assert (0 < sqrt eff) by now apply sqrt_lt_R0.
  assert (0 < ln (w / h + 1.444)).
  { rewrite <- ln_1. apply ln_increasing; lra. }
  apply Rgt_not_eq, Rmult_gt_0_compat; lra.
Qed.

Lemma characteristic_impedance_narrow (eff : R) :
  w / h < 1 -> 0 < eff ->
  Microstrip.characteristic_impedance h w eff =
  Ret (60 / sqrt eff * ln (8 * h / w + w / (4 * h))).
Proof.
  intros Hr He. unfold Microstrip.characteristic_impedance.
  rewrite py_div_nz by lra. cbn [bind].
  destruct (Rle_dec 1 (w / h)); [lra |].
  rewrite np_sqrt_nonneg by lra. cbn [bind].
  assert (0 < sqrt eff) by now apply sqrt_lt_R0.
  rewrite np_div_nz by lra. cbn [bind].
  rewrite !py_div_nz by lra. cbn [bind].
  assert (0 < 8 * h / w) by (apply Rdiv_lt_0_compat; lra).
  assert (0 < w / (4 * h)) by (apply Rdiv_lt_0_compat; lra).
  rewrite np_log_pos by lra.
  reflexivity.
Qed.

End Forward.

(** C5: for [w > 0], [h > 0] and [er > 1], [calc_microstrip_params] returns
    the pair of the piecewise Hammerstad formulas selected by [w/h]: the
    wide-line pair when [w/h >= 1], and the narrow-line pair, whose effective
    permittivity carries the extra [0.04 (1 - w/h)^2] term, when [w/h < 1]. *)
Theorem calc_microstrip_params_hammerstad (self : Microstrip.MicrostripAnalysis) (w : R) :
  0 < w -> 0 < Microstrip.h self -> 1 < Microstrip.er self ->
  (1 <= w / Microstrip.h self ->
   fst (Microstrip.calc_microstrip_params self w) =
   Ret (Hammerstad.Z0_wide (Microstrip.er self) (Microstrip.h self) w,
        Hammerstad.eff_er_wide (Microstrip.er self) (Microstrip.h self) w)) /\
  (w / Microstrip.h self < 1 ->
   fst (Microstrip.calc_microstrip_params self w) =
   Ret (Hammerstad.Z0_narrow (Microstrip.er self) (Microstrip.h self) w,
        Hammerstad.eff_er_narrow (Microstrip.er self) (Microstrip.h self) w)).
Proof.
  intros Hw Hh Her. split; intros Hr; unfold Microstrip.calc_microstrip_params.
  - rewrite effective_permittivity_wide by assumption.
    cbn [Microstrip.h Microstrip.set_eff_er].
    rewrite characteristic_impedance_wide; try assumption.
    + reflexivity.
    + pose proof (eff_er_wide_gt_1 _ _ _ Hw Hh Her). lra.
  - rewrite effective_permittivity_narrow by assumption.
    cbn [Microstrip.h Microstrip.set_eff_er].
    rewrite characteristic_impedance_narrow; try assumption.
    + reflexivity.
    + pose proof (eff_er_narrow_gt_1 _ _ _ Hw Hh Her). lra.
Qed.

Lemma calc_microstrip_params_hammerstad_witness :
  fst (Microstrip.calc_microstrip_params Microstrip.default 2e-3) =
    Ret (Hammerstad.Z0_wide 4.4 1.6e-3 2e-3, Hammerstad.eff_er_wide 4.4 1.6e-3 2e-3) /\
  fst (Microstrip.calc_microstrip_params Microstrip.default 1e-3) =
    Ret (Hammerstad.Z0_narrow 4.4 1.6e-3 1e-3, Hammerstad.eff_er_narrow 4.4 1.6e-3 1e-3).
Proof.
  split.
  - apply (calc_microstrip_params_hammerstad Microstrip.default 2e-3);
      cbn [Microstrip.default Microstrip.init Microstrip.h Microstrip.er]; lra.
  - apply (calc_microstrip_params_hammerstad Microstrip.default 1e-3);
      cbn [Microstrip.default Microstrip.init Microstrip.h Microstrip.er]; lra.
Defined.

(** ** No hidden state in the forward calculation *)

Lemma calc_microstrip_params_result (self : Microstrip.MicrostripAnalysis) (w : R) :
  fst (Microstrip.calc_microstrip_params self w) =
  params_of (Microstrip.er self) (Microstrip.h self) w.
Proof.
  unfold Microstrip.calc_microstrip_params, params_of.
  destruct (Microstrip.effective_permittivity _ _ w) as [e | x |]; cbn; try reflexivity.
  destruct (Microstrip.characteristic_impedance _ w e); reflexivity.
Qed.

Lemma calc_microstrip_params_substrate (self : Microstrip.MicrostripAnalysis) (w : R) :
  Microstrip.er (snd (Microstrip.calc_microstrip_params self w)) = Microstrip.er self /\
  Microstrip.h (snd (Microstrip.calc_microstrip_params self w)) = Microstrip.h self.
Proof.
  unfold Microstrip.calc_microstrip_params.
  destruct (Microstrip.effective_permittivity _ _ w) as [e | x |]; cbn; auto.
  destruct (Microstrip.characteristic_impedance _ w e); cbn; auto.
Qed.

Lemma after_calls_substrate (ws : list R) :
  forall self : Microstrip.MicrostripAnalysis,
    Microstrip.er (Microstrip.after_calls self ws) = Microstrip.er self /\
    Microstrip.h (Microstrip.after_calls self ws) = Microstrip.h self.
Proof.
  induction ws as [| w0 ws IH]; intros self; cbn [Microstrip.after_calls].
  - auto.
  - destruct (IH (snd (Microstrip.calc_microstrip_params self w0))) as [E1 E2].
    destruct (calc_microstrip_params_substrate self w0) as [E3 E4].
    split; congruence.
Qed.

(** C9: the pair returned by [calc_microstrip_params] is determined by the
    width, the substrate height and the permittivity alone: whatever calls
    with other widths were made before on the same object, and whatever the
    attributes [eff_er] and [Z0] hold, the call returns what a call on the
    untouched object returns, namely [params_of er h w]. *)
Theorem calc_microstrip_params_deterministic
  (self : Microstrip.MicrostripAnalysis) (ws : list R) (w : R) (e z : option R) :
  fst (Microstrip.calc_microstrip_params (Microstrip.after_calls self ws) w) =
    fst (Microstrip.calc_microstrip_params self w) /\
  fst (Microstrip.calc_microstrip_params
         (Microstrip.set_Z0 (Microstrip.set_eff_er self e) z) w) =
    params_of (Microstrip.er self) (Microstrip.h self) w.
Proof.
  split.
  - rewrite !calc_microstrip_params_result.
    destruct (after_calls_substrate ws self) as [-> ->].
    reflexivity.
  - rewrite calc_microstrip_params_result. reflexivity.
Qed.

(** ** The resonator approximator *)

Lemma bind_Ret_inv {A B : Type} (m : outcome A) (k : A -> outcome B) (b : B) :
  (x <- m ;; k x) = Ret b -> exists a, m = Ret a /\ k a = Ret b.
Proof. destruct m as [a | e |]; cbn; intros H; try discriminate. now exists a. Qed.

Lemma np_div_Ret_inv (x y v : R) : np_div x y = Ret v -> y <> 0 /\ v = x / y.
Proof.
  unfold np_div. destruct (Req_dec_T y 0); intros H; [discriminate |].
  split; [assumption | congruence].
Qed.

Lemma py_div_Ret_inv (x y v : R) : py_div x y = Ret v -> y <> 0 /\ v = x / y.
Proof.
  unfold py_div. destruct (Req_dec_T y 0); intros H; [discriminate |].
  split; [assumption | congruence].
Qed.

(** On resonance the single-pole model gives no reflection and transmits the
    coupling coefficient. *)
Lemma resonator_sample_on_resonance (k f_res : R) :
  f_res <> 0 ->
  Resonator.resonator_sample k f_res f_res = Ret (RtoC 0, RtoC k).
Proof.
  intros Hf. unfold Resonator.resonator_sample.
  rewrite np_div_nz by assumption. cbn [bind].
  replace ((f_res - f_res) / f_res) with 0 by (field; assumption).
  assert (Hn : Cnorm2 (Cadd (RtoC 1) (Cmul (Cmul Ci (RtoC Resonator.Q_total)) (RtoC 0))) = 1).
  { unfold Cnorm2, Cadd, Cmul, Ci, RtoC; cbn [Re Im]. ring. }
  rewrite !Cdiv_nz by (rewrite Hn; lra).
  cbn [bind]. rewrite Hn.
  unfold Cadd, Cmul, Ci, RtoC; cbn [Re Im].
  do 2 f_equal; f_equal; field.
Qed.

(** The effective permittivity used by [calc_resonator_length] is positive on
    a physical substrate. *)
Lemma resonator_eff_er_pos (er h w : R) :
  0 < w -> 0 < h -> 0 < er -> 0 < Hammerstad.eff_er_wide er h w.
Proof.
  intros Hw Hh Her. unfold Hammerstad.eff_er_wide.
  assert (Hb : 0 < 12 * h / w) by (apply Rdiv_lt_0_compat; lra).
  assert (Hs : 1 < sqrt (1 + 12 * h / w)).
  { rewrite <- sqrt_1 at 1. apply sqrt_lt_1; lra. }
  assert (Hp : 0 < / sqrt (1 + 12 * h / w) < 1).
  { split; [apply Rinv_0_lt_compat; lra |].
    apply Rmult_lt_reg_r with (sqrt (1 + 12 * h / w)); [lra |].
    rewrite Rinv_l by lra. lra. }
  nra.
Qed.

Lemma calc_resonator_length_value (er h tand f_res w : R) :
  0 < w -> 0 < h -> 0 < er -> f_res <> 0 ->
  Resonator.calc_resonator_length (Resonator.init er h tand) f_res w =
  Ret (constants_c / (f_res * sqrt (Hammerstad.eff_er_wide er h w)) / 4,
       Hammerstad.eff_er_wide er h w).
Proof.
  intros Hw Hh Her Hf.
  pose proof (resonator_eff_er_pos er h w Hw Hh Her) as He.
  pose proof (sqrt_lt_R0 _ He) as Hs.
  unfold Resonator.calc_resonator_length.
  cbn [Resonator.init Resonator.h Resonator.er Resonator.c].
  rewrite py_div_nz by lra. cbn [bind].
  rewrite py_pow_neg_half_pos by now apply base_pos. cbn [bind].
  fold (Hammerstad.eff_er_wide er h w).
  rewrite np_sqrt_nonneg by lra. cbn [bind].
  rewrite np_div_nz by (apply Rmult_integral_contrapositive_currified; lra).
  reflexivity.
Qed.

Lemma calc_resonator_s_params_value (er h tand d g w : R) (f_range : R * R * nat) :
  0 < w -> 0 < h -> 0 < er ->
  Resonator.calc_resonator_s_params (Resonator.init er h tand) d g w f_range =
  let f := np_linspace (fst (fst f_range)) (snd (fst f_range)) (snd f_range) in
  let k := Resonator.coupling (Resonator.init er h tand) g in
  let samples := map (Resonator.resonator_sample k 5e9) f in
  Ret (f, map Microstrip.sample_fst samples, map Microstrip.sample_snd samples, 5e9,
       constants_c / (4 * 5e9 * sqrt (Hammerstad.eff_er_wide er h w))).
Proof.
  intros Hw Hh Her.
  pose proof (resonator_eff_er_pos er h w Hw Hh Her) as He.
  pose proof (sqrt_lt_R0 _ He) as Hs.
  destruct f_range as [[f0 f1] num].
  unfold Resonator.calc_resonator_s_params.
  rewrite calc_resonator_length_value by (try assumption; lra).
  cbn [Resonator.init Resonator.h Resonator.c fst snd].
  rewrite py_div_nz by lra. cbn [bind].
  rewrite np_sqrt_nonneg by lra. cbn [bind].
  unfold constants_c.
  rewrite np_div_nz.
  2:{ apply Rgt_not_eq. field_simplify; [lra | lra]. }
  cbn [bind]. unfold Resonator.coupling. cbn [Resonator.h].
  set (s := sqrt (Hammerstad.eff_er_wide er h w)) in *.
  replace (299792458 / (4 * (299792458 / (5e9 * s) / 4) * s)) with 5e9 by (field; lra).
  replace (299792458 / (5e9 * s) / 4) with (299792458 / (4 * 5e9 * s)) by (field; lra).
  reflexivity.
Qed.

(** C10, as the code has it: the resonant frequency and the length returned
    by [calc_resonator_s_params] depend neither on the dimension [d] nor on
    the gap [g].  For every width [w > 0], on every substrate with [h > 0]
    and [er > 0], the call returns the same [f_res] and the same [length] for
    all [d] and [g]; with [(length, eff_er)] the result of
    [calc_resonator_length(5e9, w)] they are tied to the 5 GHz nominal by
    [length * (4 * 5e9 * sqrt eff_er) = c] and
    [f_res * (4 * length * sqrt eff_er) = c].  Both quotients are rounded in
    the script's doubles, which meet the two relations to rounding. *)
Theorem resonant_frequency_independent_of_d_and_g (er h tand w : R)
  (f_range : R * R * nat) :
  0 < w -> 0 < h -> 0 < er ->
  exists f_res length eff_er,
    Resonator.calc_resonator_length (Resonator.init er h tand) 5e9 w =
      Ret (length, eff_er) /\
    0 < eff_er /\ 0 < length /\ 0 < f_res /\
    length * (4 * 5e9 * sqrt eff_er) = constants_c /\
    f_res * (4 * length * sqrt eff_er) = constants_c /\
    forall d g, exists f S11 S21,
      Resonator.calc_resonator_s_params (Resonator.init er h tand) d g w f_range =
      Ret (f, S11, S21, f_res, length).
Proof.
  intros Hw Hh Her.
  pose proof (resonator_eff_er_pos er h w Hw Hh Her) as He.
  pose proof (sqrt_lt_R0 _ He) as Hs.
  exists 5e9, (constants_c / (4 * 5e9 * sqrt (Hammerstad.eff_er_wide er h w))),
         (Hammerstad.eff_er_wide er h w).
  set (s := sqrt (Hammerstad.eff_er_wide er h w)) in *.
  split.
  { rewrite calc_resonator_length_value by (try assumption; lra).
    fold s. do 2 f_equal. field. lra. }
  split; [exact He |].
  split; [unfold constants_c; apply Rdiv_lt_0_compat; lra |].
  split; [lra |].
  split; [unfold constants_c; field; lra |].
  split; [unfold constants_c; field; lra |].
  intros d g. rewrite calc_resonator_s_params_value by assumption.
  cbv zeta. fold s. eauto.
Qed.

Lemma resonant_frequency_independent_of_d_and_g_witness :
  exists f_res length eff_er,
    Resonator.calc_resonator_length Resonator.default 5e9 0.7e-3 =
      Ret (length, eff_er) /\
    0 < eff_er /\ 0 < length /\ 0 < f_res /\
    length * (4 * 5e9 * sqrt eff_er) = constants_c /\
    f_res * (4 * length * sqrt eff_er) = constants_c /\
    forall d g, exists f S11 S21,
      Resonator.calc_resonator_s_params Resonator.default d g 0.7e-3
        (1e9, 10e9, 1000%nat) =
      Ret (f, S11, S21, f_res, length).
Proof.
  apply (resonant_frequency_independent_of_d_and_g 4.4 1.6e-3 0.025 0.7e-3
           (1e9, 10e9, 1000%nat)); lra.
Defined.

(** The resonant frequency is not the double [5e9] at every width.  On the
    default substrate at [w = 0.7e-3], lines 16-20 and 37-38 evaluated in
    binary64 return [4999999999.999999], the double next below the nominal,
    whichever of its three possible roundings the power [** (-0.5)] takes. *)
Lemma resonant_frequency_off_nominal :
  Forall (fun pow_neg_half =>
            fst (Binary64.resonant_frequency pow_neg_half Binary64.default
                   Binary64.w_0_7_mm) = Binary64.below_nominal)
         Binary64.pow_neg_half_roundings /\
  Binary64.below_nominal = PrimFloat.next_down Binary64.nominal /\
  PrimFloat.ltb Binary64.below_nominal Binary64.nominal = true /\
  PrimFloat.eqb Binary64.below_nominal Binary64.nominal = false.
Proof.
  split; [| split; [| split]].
  - repeat constructor; vm_compute; reflexivity.
  - vm_compute; reflexivity.
  - vm_compute; reflexivity.
  - vm_compute; reflexivity.
Qed.

(** C8: in a result of [calc_resonator_s_params], at every sample of the sweep
    that equals the returned resonant frequency the reflection [S11] is 0 and
    the transmission [S21] is the coupling coefficient [k = 0.1 exp(-g/h)]. *)
Theorem on_resonance_sample (self : Resonator.ResonatorAnalysis) (d g w : R)
  (f_range : R * R * nat) (f : list R) (S11 S21 : list (outcome C))
  (f_res length : R) (i : nat) :
  Resonator.calc_resonator_s_params self d g w f_range = Ret (f, S11, S21, f_res, length) ->
  nth_error f i = Some f_res ->
  nth_error S11 i = Some (Ret (RtoC 0)) /\
  nth_error S21 i = Some (Ret (RtoC (Resonator.coupling self g))).
Proof.
  intros Hcall Hi.
  destruct f_range as [[f0 f1] num].
  unfold Resonator.calc_resonator_s_params in Hcall.
  apply bind_Ret_inv in Hcall as (q & Hq & Hcall).
  apply py_div_Ret_inv in Hq as [Hh ->].
  apply bind_Ret_inv in Hcall as ([len eff] & Hlen & Hcall).
  apply bind_Ret_inv in Hcall as (s & Hs & Hcall).
  apply bind_Ret_inv in Hcall as (fr & Hfr & Hcall).
  apply np_div_Ret_inv in Hfr as [Hden Hfr].
  injection Hcall as <- <- <- <- <-.
  assert (Hnz : fr <> 0).
  { subst fr. intros H0.
    unfold Rdiv in H0. apply Rmult_integral in H0 as [H0 | H0].
    - unfold Resonator.calc_resonator_length in Hlen.
      apply bind_Ret_inv in Hlen as (q1 & _ & Hlen).
      apply bind_Ret_inv in Hlen as (p1 & _ & Hlen).
      apply bind_Ret_inv in Hlen as (s1 & _ & Hlen).
      apply bind_Ret_inv in Hlen as (lam & Hlam & Hlen).
      apply np_div_Ret_inv in Hlam as [_ ->].
      injection Hlen as <- _. rewrite H0 in Hden. apply Hden. unfold Rdiv. ring.
    - revert H0. apply Rinv_neq_0_compat, Hden. }
  rewrite !nth_error_map, Hi. cbn [option_map].
  rewrite resonator_sample_on_resonance by assumption.
  split; reflexivity.
Qed.

Lemma on_resonance_sample_witness :
  nth_error (map Microstrip.sample_fst
               (map (Resonator.resonator_sample (Resonator.coupling Resonator.default 0.05e-3) 5e9)
                    (np_linspace 1e9 10e9 10))) 4 = Some (Ret (RtoC 0)) /\
  nth_error (map Microstrip.sample_snd
               (map (Resonator.resonator_sample (Resonator.coupling Resonator.default 0.05e-3) 5e9)
                    (np_linspace 1e9 10e9 10))) 4 =
  Some (Ret (RtoC (Resonator.coupling Resonator.default 0.05e-3))).
Proof.
  apply (on_resonance_sample Resonator.default 6e-3 0.05e-3 1e-3 (1e9, 10e9, 10%nat)
           (np_linspace 1e9 10e9 10) _ _ 5e9
           (constants_c / (4 * 5e9 * sqrt (Hammerstad.eff_er_wide 4.4 1.6e-3 1e-3)))).
  - unfold Resonator.default.
    rewrite calc_resonator_s_params_value by lra. reflexivity.
  - cbn [np_linspace seq map nth_error]. f_equal. simpl INR. lra.
Defined.

(** ** The transmission-line response *)

Lemma calc_microstrip_params_frame (self : Microstrip.MicrostripAnalysis) (w : R) :
  Microstrip.tand (snd (Microstrip.calc_microstrip_params self w)) = Microstrip.tand self /\
  Microstrip.f (snd (Microstrip.calc_microstrip_params self w)) = Microstrip.f self /\
  Microstrip.c (snd (Microstrip.calc_microstrip_params self w)) = Microstrip.c self.
Proof.
  unfold Microstrip.calc_microstrip_params.
  destruct (Microstrip.effective_permittivity _ _ w) as [e | x |]; cbn; auto.
  destruct (Microstrip.characteristic_impedance _ w e); cbn; auto.
Qed.

(** A returned effective permittivity is never negative: the impedance
    formula has taken its square root. *)
Lemma calc_microstrip_params_eff_nonneg (self self' : Microstrip.MicrostripAnalysis)
  (w z eff : R) :
  Microstrip.calc_microstrip_params self w = (Ret (z, eff), self') -> 0 <= eff.
Proof.
  unfold Microstrip.calc_microstrip_params.
  destruct (Microstrip.effective_permittivity _ _ w) as [e | x |]; try discriminate.
  destruct (Microstrip.characteristic_impedance _ w e) as [z' | x |] eqn:Hz; try discriminate.
  intros H. injection H as -> -> _.
  unfold Microstrip.characteristic_impedance in Hz.
  apply bind_Ret_inv in Hz as (r & _ & Hz).
  destruct (Rle_dec 1 r);
    apply bind_Ret_inv in Hz as (s & Hs & _);
    unfold np_sqrt in Hs; destruct (Rlt_dec eff 0); try discriminate; lra.
Qed.

Lemma line_sample_frame (s1 s2 : Microstrip.MicrostripAnalysis) (Z0 eff length fi : R) :
  Microstrip.c s1 = Microstrip.c s2 -> Microstrip.tand s1 = Microstrip.tand s2 ->
  Microstrip.line_sample s1 Z0 eff length fi =
  Microstrip.line_sample s2 Z0 eff length fi.
Proof.
  intros Hc Ht.
  unfold Microstrip.line_sample, Microstrip.propagation_constant, Microstrip.phase_constant.
  now rewrite Hc, Ht.
Qed.


Lemma Cmod_phasor (r t : R) : 0 <= r -> Cmod (mkC (r * cos t) (r * sin t)) = r.
Proof.
  intros Hr. unfold Cmod, Cnorm2; cbn [Re Im].
  replace (r * cos t * (r * cos t) + r * sin t * (r * sin t))
    with (r * r * ((sin t)² + (cos t)²)) by (unfold Rsqr; ring).
  rewrite sin2_cos2, Rmult_1_r. now apply sqrt_square.
Qed.



Lemma matched_line_D_pos :
  0 < 1.6e-3 / 1.6e-3 + 1.393 + 0.667 * ln (1.6e-3 / 1.6e-3 + 1.444).
Proof.
  assert (0 < ln (1.6e-3 / 1.6e-3 + 1.444)).
  { rewrite <- ln_1. apply ln_increasing; lra. }
  lra.
Qed.

Lemma matched_line_eff :
  Hammerstad.eff_er_wide matched_er 1.6e-3 1.6e-3 =
  (120 * PI / (50 * (1.6e-3 / 1.6e-3 + 1.393 + 0.667 * ln (1.6e-3 / 1.6e-3 + 1.444)))) ^ 2.
Proof.
  unfold Hammerstad.eff_er_wide, matched_er. cbv zeta.
  set (D := 1.6e-3 / 1.6e-3 + 1.393 + 0.667 * ln (1.6e-3 / 1.6e-3 + 1.444)).
  set (p := / sqrt (1 + 12 * 1.6e-3 / 1.6e-3)).
  assert (Hp : 0 < p).
  { apply Rinv_0_lt_compat, sqrt_lt_R0. lra. }
  pose proof matched_line_D_pos as HD. fold D in HD.
  field. split; lra.
Qed.

Lemma matched_line_params :
  Microstrip.calc_microstrip_params matched_line 1.6e-3 =
  (Ret (50, Hammerstad.eff_er_wide matched_er 1.6e-3 1.6e-3),
   Microstrip.set_Z0
     (Microstrip.set_eff_er matched_line
        (Some (Hammerstad.eff_er_wide matched_er 1.6e-3 1.6e-3)))
     (Some 50)).
Proof.
  pose proof matched_line_D_pos as HD.
  pose proof PI_RGT_0 as Hpi.
  set (D := 1.6e-3 / 1.6e-3 + 1.393 + 0.667 * ln (1.6e-3 / 1.6e-3 + 1.444)) in *.
  assert (HE : 0 < 120 * PI / (50 * D)).
  { apply Rdiv_lt_0_compat; nra. }
  assert (Heff : 0 < Hammerstad.eff_er_wide matched_er 1.6e-3 1.6e-3).
  { rewrite matched_line_eff. fold D. apply pow_lt. exact HE. }
  unfold Microstrip.calc_microstrip_params.
  cbn [matched_line Microstrip.init Microstrip.er Microstrip.h].
  rewrite effective_permittivity_wide by lra.
  cbn [Microstrip.h Microstrip.set_eff_er].
  rewrite characteristic_impedance_wide by lra.
  assert (HZ : 120 * PI /
                 (sqrt (Hammerstad.eff_er_wide matched_er 1.6e-3 1.6e-3) * D) = 50).
  { rewrite matched_line_eff. fold D.
    replace ((120 * PI / (50 * D)) ^ 2) with ((120 * PI / (50 * D)) * (120 * PI / (50 * D)))
      by ring.
    rewrite sqrt_square by lra.
    field. split; lra. }
  fold D. rewrite HZ. reflexivity.
Qed.




(** ** Numeric bounds *)

Lemma PI_bounds : 3.1415 < PI < 3.1416.
Proof.
  pose proof (PI_2_3_7_ineq 3) as H.
  unfold PI_2_3_7_tg, tg_alt, Ratan_seq in H.
  simpl in H. lra.
Qed.

Lemma ln_le_minus_1 (x : R) : 0 < x -> ln x <= x - 1.
Proof.
  intros Hx. pose proof (exp_ineq1_le (ln x)) as H.
  rewrite exp_ln in H by assumption. lra.
Qed.

Lemma exp_double (y : R) : exp (2 * y) = exp y * exp y.
Proof. replace (2 * y) with (y + y) by ring. apply exp_plus. Qed.

(** One squaring step of a lower bound, and of an upper bound, of [exp]. *)
Lemma exp_lower_step (y b b' : R) : 0 <= b -> b <= exp y -> b' <= b * b -> b' <= exp (2 * y).
Proof. intros Hb Hy Hb'. rewrite exp_double. nra. Qed.

Lemma exp_upper_step (y b b' : R) : exp y <= b -> b * b <= b' -> exp (2 * y) <= b'.
Proof. intros Hy Hb'. rewrite exp_double. pose proof (exp_pos y). nra. Qed.

Lemma exp_upper_base (y : R) : y < 1 -> exp y <= / (1 - y).
Proof.
  intros Hy. pose proof (exp_ineq1_le (- y)) as H.
  rewrite exp_Ropp in H.
  pose proof (exp_pos y) as Hp.
  apply Rmult_le_reg_r with (1 - y); [lra |].
  rewrite Rinv_l by lra.
  apply Rmult_le_reg_r with (/ exp y); [now apply Rinv_0_lt_compat |].
  replace (exp y * (1 - y) * / exp y) with ((1 - y) * (exp y * / exp y)) by ring.
  rewrite Rinv_r by lra. lra.
Qed.

Lemma sqrt_lower (a x : R) : 0 <= a -> a * a <= x -> a <= sqrt x.
Proof.
  intros Ha Hx. apply Rle_trans with (sqrt (a * a)).
  - rewrite sqrt_square by assumption. lra.
  - apply sqrt_le_1_alt. exact Hx.
Qed.

Lemma sqrt_upper (b x : R) : 0 <= b -> x <= b * b -> sqrt x <= b.
Proof.
  intros Hb Hx. apply Rle_trans with (sqrt (b * b)).
  - apply sqrt_le_1_alt. exact Hx.
  - rewrite sqrt_square by assumption. lra.
Qed.

(** ** The inverse formula, [calc_microstrip_width] *)

Lemma calc_microstrip_width_lt_44 (self : LPF.LPFDesign) (Z : R) :
  Z < 44 ->
  LPF.calc_microstrip_width self Z = Ret (Width.wide (LPF.er self) (LPF.h self)).
Proof.
  intros HZ. unfold LPF.calc_microstrip_width.
  destruct (Rlt_dec Z 44); [| contradiction].
  pose proof PI_bounds as Hpi.
  rewrite np_log_pos by lra. cbn [bind].
  rewrite np_log_pos by (apply Rdiv_lt_0_compat; lra).
  reflexivity.
Qed.

Lemma A_lower (er Z : R) : 1 < er -> 0 <= Z -> Z / 60 <= Width.A er Z.
Proof.
  intros Her HZ. unfold Width.A.
  assert (Hs : 1 <= sqrt ((er + 1) / 2)) by (apply sqrt_lower; lra).
  assert (H1 : 0 <= (er - 1) / (er + 1)).
  { apply Rlt_le, Rdiv_lt_0_compat; lra. }
  assert (H2 : 0 <= 0.11 / er).
  { apply Rlt_le, Rdiv_lt_0_compat; lra. }
  assert (0 <= (er - 1) / (er + 1) * (0.23 + 0.11 / er)) by (apply Rmult_le_pos; lra).
  nra.
Qed.

Lemma exp_2A_gt_2 (er Z : R) : 1 < er -> 44 <= Z -> 2 < exp (2 * Width.A er Z).
Proof.
  intros Her HZ.
  pose proof (A_lower er Z Her ltac:(lra)).
  pose proof (exp_ineq1_le (2 * Width.A er Z)). lra.
Qed.

Lemma calc_microstrip_width_ge_44 (er h tand Z : R) :
  1 < er -> 44 <= Z ->
  LPF.calc_microstrip_width (LPF.init er h tand) Z = Ret (Width.narrow er h Z).
Proof.
  intros Her HZ. unfold LPF.calc_microstrip_width.
  cbn [LPF.init LPF.er LPF.h].
  destruct (Rlt_dec Z 44); [lra |].
  rewrite np_sqrt_nonneg by lra. cbn [bind].
  rewrite !py_div_nz by lra. cbn [bind].
  fold (Width.A er Z).
  pose proof (exp_2A_gt_2 er Z Her HZ).
  rewrite np_div_nz by lra.
  reflexivity.
Qed.

(** ** The stepped low-pass synthesizer *)

Lemma lpf_step_odd (er h tand : R) (Zh Zl : list R) (i : Z) (gi : R) :
  (i mod 2 =? 1)%Z = true -> py_getitem LPF.g i = Ret gi -> 0 <= gi ->
  LPF.lpf_step (LPF.init er h tand) (Zh, Zl) i = Ret (Zh ++ [Stepped.Z_high 50 gi], Zl).
Proof.
  intros Hi Hg Hpos. unfold LPF.lpf_step. rewrite Hi, Hg. cbn [bind LPF.init LPF.Z0].
  pose proof PI_bounds.
  rewrite np_sqrt_nonneg by nra.
  reflexivity.
Qed.

Lemma lpf_step_even (er h tand : R) (Zh Zl : list R) (i : Z) (gi : R) :
  (i mod 2 =? 1)%Z = false -> py_getitem LPF.g i = Ret gi -> 0 <= gi ->
  LPF.lpf_step (LPF.init er h tand) (Zh, Zl) i = Ret (Zh, Zl ++ [Stepped.Z_low 50 gi]).
Proof.
  intros Hi Hg Hpos. unfold LPF.lpf_step. rewrite Hi, Hg. cbn [bind LPF.init LPF.Z0].
  pose proof PI_bounds.
  rewrite py_div_nz by lra. cbn [bind].
  assert (Hb : 1 <= 1 + gi * (PI / 2) * (50 / 50)) by nra.
  rewrite np_sqrt_nonneg by lra. cbn [bind].
  assert (1 <= sqrt (1 + gi * (PI / 2) * (50 / 50))) by (apply sqrt_lower; lra).
  rewrite np_div_nz by lra.
  reflexivity.
Qed.

Lemma lpf_step_out_of_table (self : LPF.LPFDesign) (acc : list R * list R) (i : Z) :
  (7 <= i)%Z -> LPF.lpf_step self acc i = Raise IndexError.
Proof.
  intros Hi. unfold LPF.lpf_step. destruct acc as [Zh Zl].
  assert (Hg : py_getitem LPF.g i = Raise IndexError).
  { unfold py_getitem.
    destruct (i <? 0)%Z eqn:E; [lia |].
    rewrite E.
    assert (En : nth_error LPF.g (Z.to_nat i) = None).
    { apply nth_error_None. cbn [LPF.g length]. lia. }
    now rewrite En. }
  rewrite Hg. now destruct (i mod 2 =? 1)%Z.
Qed.

Lemma lpf_loop_app (self : LPF.LPFDesign) (l1 l2 : list Z) :
  forall acc,
    LPF.lpf_loop self acc (l1 ++ l2) =
    (acc' <- LPF.lpf_loop self acc l1 ;; LPF.lpf_loop self acc' l2).
Proof.
  induction l1 as [| i l1 IH]; intros acc; cbn [app LPF.lpf_loop bind].
  - reflexivity.
  - destruct (LPF.lpf_step self acc i); cbn [bind]; auto.
Qed.

Lemma map_seq_offset (a : Z) (p q : nat) :
  forall s : nat,
    map (fun k => (a + Z.of_nat k)%Z) (seq (p + s) q) =
    map (fun k => (a + Z.of_nat p + Z.of_nat k)%Z) (seq s q).
Proof.
  induction q as [| q IH]; intros s; cbn [seq map].
  - reflexivity.
  - f_equal; [lia |]. rewrite <- IH. f_equal. f_equal. lia.
Qed.

Lemma py_range_split (a b m : Z) :
  (a <= m <= b)%Z -> py_range a b = py_range a m ++ py_range m b.
Proof.
  intros H. unfold py_range.
  replace (Z.to_nat (b - a)) with (Z.to_nat (m - a) + Z.to_nat (b - m))%nat by lia.
  rewrite seq_app, map_app. f_equal.
  replace (0 + Z.to_nat (m - a))%nat with (Z.to_nat (m - a) + 0)%nat by lia.
  rewrite map_seq_offset. apply map_ext. intros k. lia.
Qed.

Lemma g_at_values :
  Stepped.g_at 1 = 0.6180 /\ Stepped.g_at 2 = 1.6180 /\ Stepped.g_at 3 = 2.0000 /\
  Stepped.g_at 4 = 1.6180 /\ Stepped.g_at 5 = 0.6180 /\ Stepped.g_at 6 = 1.0.
Proof. repeat split; reflexivity. Qed.

Lemma py_getitem_g (i : Z) :
  (1 <= i <= 6)%Z -> py_getitem LPF.g i = Ret (Stepped.g_at i) /\ 0 <= Stepped.g_at i.
Proof.
  intros Hi.
  assert (Hc : (i = 1 \/ i = 2 \/ i = 3 \/ i = 4 \/ i = 5 \/ i = 6)%Z) by lia.
  destruct Hc as [-> | [-> | [-> | [-> | [-> | ->]]]]];
    (split; [reflexivity |]);
    destruct g_at_values as (E1 & E2 & E3 & E4 & E5 & E6);
    rewrite ?E1, ?E2, ?E3, ?E4, ?E5, ?E6; lra.
Qed.

Lemma g_at_even (i : Z) :
  (1 <= i <= 6)%Z -> Stepped.is_odd i = false -> 1 <= Stepped.g_at i.
Proof.
  intros Hi Hodd.
  assert (Hc : (i = 1 \/ i = 2 \/ i = 3 \/ i = 4 \/ i = 5 \/ i = 6)%Z) by lia.
  destruct Hc as [-> | [-> | [-> | [-> | [-> | ->]]]]];
    try discriminate Hodd;
    destruct g_at_values as (E1 & E2 & E3 & E4 & E5 & E6);
    rewrite ?E1, ?E2, ?E3, ?E4, ?E5, ?E6; lra.
Qed.

Lemma lpf_loop_in_table (er h tand : R) (idx : list Z) :
  Forall (fun i => (1 <= i <= 6)%Z) idx ->
  forall Zh Zl,
    LPF.lpf_loop (LPF.init er h tand) (Zh, Zl) idx =
    Ret (Zh ++ map (fun i => Stepped.Z_high 50 (Stepped.g_at i)) (filter Stepped.is_odd idx),
         Zl ++ map (fun i => Stepped.Z_low 50 (Stepped.g_at i))
                   (filter (fun i => negb (Stepped.is_odd i)) idx)).
Proof.
  induction 1 as [| i idx Hi _ IH]; intros Zh Zl; cbn [LPF.lpf_loop filter map].
  - now rewrite !app_nil_r.
  - destruct (py_getitem_g i Hi) as [Hg Hpos].
    destruct (Stepped.is_odd i) eqn:Hodd; cbn [negb].
    + rewrite (lpf_step_odd _ _ _ _ _ i (Stepped.g_at i)) by assumption.
      cbn [bind map]. rewrite IH, <- app_assoc. reflexivity.
    + rewrite (lpf_step_even _ _ _ _ _ i (Stepped.g_at i)) by assumption.
      cbn [bind map]. rewrite IH, <- app_assoc. reflexivity.
Qed.

Lemma py_range_bounds (a b : Z) : Forall (fun i => (a <= i < b)%Z) (py_range a b).
Proof.
  unfold py_range. apply Forall_forall. intros i Hi.
  apply in_map_iff in Hi as (k & <- & Hk). apply in_seq in Hk. lia.
Qed.

Lemma lpf_loop_upto (er h tand : R) (n : Z) :
  (n <= 6)%Z ->
  LPF.lpf_loop (LPF.init er h tand) ([], []) (py_range 1 (n + 1)) =
  Ret (Stepped.high_impedances n, Stepped.low_impedances n).
Proof.
  intros Hn. rewrite lpf_loop_in_table.
  - reflexivity.
  - eapply Forall_impl; [| apply py_range_bounds]. cbv beta. intros i Hi. lia.
Qed.

Lemma lpf_loop_beyond (er h tand : R) (n : Z) :
  (7 <= n)%Z ->
  LPF.lpf_loop (LPF.init er h tand) ([], []) (py_range 1 (n + 1)) = Raise IndexError.
Proof.
  intros Hn.
  rewrite (py_range_split 1 (n + 1) 7) by lia.
  rewrite lpf_loop_app.
  replace 7%Z with (6 + 1)%Z at 1 by lia.
  rewrite lpf_loop_upto by lia. cbn [bind].
  rewrite (py_range_split 7 (n + 1) 8) by lia.
  change (py_range 7 8) with [7%Z].
  cbn [app LPF.lpf_loop].
  rewrite lpf_step_out_of_table by lia. reflexivity.
Qed.

Lemma mapM_Ret {A B : Type} (f : A -> outcome B) (g : A -> B) (l : list A) :
  Forall (fun a => f a = Ret (g a)) l -> mapM f l = Ret (map g l).
Proof.
  induction 1 as [| a l Ha _ IH]; cbn [mapM map].
  - reflexivity.
  - rewrite Ha, IH. reflexivity.
Qed.

Lemma Z_high_ge_50 (gi : R) : 0 <= gi -> 50 <= Stepped.Z_high 50 gi.
Proof.
  intros Hg. unfold Stepped.Z_high. pose proof PI_bounds.
  assert (1 <= sqrt (1 + gi * (PI / 2) * (50 / 50))) by (apply sqrt_lower; nra).
  lra.
Qed.

Lemma Z_low_lt_44 (gi : R) : 1 <= gi -> Stepped.Z_low 50 gi < 44.
Proof.
  intros Hg. unfold Stepped.Z_low. pose proof PI_bounds.
  assert (Hs : 1.5 <= sqrt (1 + gi * (PI / 2) * (50 / 50))) by (apply sqrt_lower; nra).
  apply Rmult_lt_reg_r with (sqrt (1 + gi * (PI / 2) * (50 / 50))); [lra |].
  unfold Rdiv. rewrite Rmult_assoc, Rinv_l by lra. lra.
Qed.

(** The design returned for an order inside the table. *)
Lemma design_stepped_lpf_value (er h tand fc : R) (n : Z) :
  1 < er -> fc <> 0 -> (n <= 6)%Z ->
  LPF.design_stepped_lpf (LPF.init er h tand) fc n =
  Ret (LPF.mkDesign
         (Stepped.high_impedances n) (Stepped.low_impedances n)
         (map (Width.narrow er h) (Stepped.high_impedances n))
         (map (fun _ => Width.wide er h) (Stepped.low_impedances n))
         (constants_c / (fc * sqrt er) / 8) (constants_c / (fc * sqrt er))).
Proof.
  intros Her Hfc Hn. unfold LPF.design_stepped_lpf.
  rewrite lpf_loop_upto by assumption. cbn [bind LPF.init LPF.er LPF.c].
  rewrite np_sqrt_nonneg by lra. cbn [bind].
  assert (0 < sqrt er) by (apply sqrt_lt_R0; lra).
  rewrite np_div_nz by (apply Rmult_integral_contrapositive_currified; lra).
  cbn [bind].
  assert (Hrange : Forall (fun i => (1 <= i <= 6)%Z) (py_range 1 (n + 1))).
  { eapply Forall_impl; [| apply py_range_bounds]. cbv beta. intros i Hi. lia. }
  rewrite (mapM_Ret _ (Width.narrow er h)).
  2:{ unfold Stepped.high_impedances. apply Forall_forall. intros z Hz.
      apply in_map_iff in Hz as (i & <- & Hi). apply filter_In in Hi as [Hi _].
      rewrite Forall_forall in Hrange. apply Hrange in Hi.
      apply calc_microstrip_width_ge_44; [assumption |].
      pose proof (Z_high_ge_50 _ (proj2 (py_getitem_g i Hi))). lra. }
  cbn [bind].
  rewrite (mapM_Ret _ (fun _ => Width.wide er h)).
  2:{ unfold Stepped.low_impedances. apply Forall_forall. intros z Hz.
      apply in_map_iff in Hz as (i & <- & Hi). apply filter_In in Hi as [Hi Hodd].
      rewrite Forall_forall in Hrange. apply Hrange in Hi.
      apply Bool.negb_true_iff in Hodd.
      apply (calc_microstrip_width_lt_44 (LPF.init er h tand)).
      apply Z_low_lt_44, g_at_even; assumption. }
  reflexivity.
Qed.

Lemma impedance_counts (n : Z) :
  (n <= 6)%Z ->
  length (Stepped.high_impedances n) = Stepped.odd_count n /\
  length (Stepped.low_impedances n) = Stepped.even_count n.
Proof.
  intros Hn.
  unfold Stepped.high_impedances, Stepped.low_impedances,
    Stepped.odd_count, Stepped.even_count.
  rewrite !length_map.
  destruct (Z_le_gt_dec n 0) as [Hle | Hgt].
  - unfold py_range. replace (Z.to_nat (n + 1 - 1)) with 0%nat by lia.
    cbn [seq map filter length].
    assert (((n + 1) / 2 < 1)%Z) by (apply Z.div_lt_upper_bound; lia).
    assert ((n / 2 < 1)%Z) by (apply Z.div_lt_upper_bound; lia).
    split; lia.
  - assert (Hc : (n = 1 \/ n = 2 \/ n = 3 \/ n = 4 \/ n = 5 \/ n = 6)%Z) by lia.
    destruct Hc as [-> | [-> | [-> | [-> | [-> | ->]]]]]; split; reflexivity.
Qed.



(** C2, as the code has it: the order is not validated.  Every order up to
    6 returns a design, built from the n=5 table, with one high-impedance
    section per odd index and one low-impedance section per even index of
    [1..n] (an empty design when [n <= 0]); every order from 7 on fails with
    [IndexError] when the loop reads past the table. *)
Theorem design_order_unchecked (er h tand fc : R) (n : Z) :
  1 < er -> fc <> 0 ->
  ((n <= 6)%Z ->
   exists d,
     LPF.design_stepped_lpf (LPF.init er h tand) fc n = Ret d /\
     length (LPF.Z_high d) = Stepped.odd_count n /\
     length (LPF.Z_low d) = Stepped.even_count n /\
     length (LPF.widths_high d) = Stepped.odd_count n /\
     length (LPF.widths_low d) = Stepped.even_count n) /\
  ((7 <= n)%Z ->
   LPF.design_stepped_lpf (LPF.init er h tand) fc n = Raise IndexError).
Proof.
  intros Her Hfc. split; intros Hn.
  - rewrite design_stepped_lpf_value by assumption.
    eexists. split; [reflexivity |].
    cbn [LPF.Z_high LPF.Z_low LPF.widths_high LPF.widths_low].
    rewrite !length_map.
    destruct (impedance_counts n Hn) as [-> ->]. auto.
  - unfold LPF.design_stepped_lpf. now rewrite lpf_loop_beyond.
Qed.

Lemma design_order_unchecked_witness :
  (exists d,
     LPF.design_stepped_lpf LPF.default 3e9 4 = Ret d /\
     length (LPF.Z_high d) = 2%nat /\ length (LPF.Z_low d) = 2%nat /\
     length (LPF.widths_high d) = 2%nat /\ length (LPF.widths_low d) = 2%nat) /\
  LPF.design_stepped_lpf LPF.default 3e9 7 = Raise IndexError.
Proof.
  split.
  - apply (design_order_unchecked 4.4 1.6e-3 0.025 3e9 4); [lra | lra | lia].
  - apply (design_order_unchecked 4.4 1.6e-3 0.025 3e9 7); [lra | lra | lia].
Defined.

(** The order 3 is not 5, and a design with two high-impedance sections and
    one low-impedance section comes back: no [UnsupportedOrder]. *)
Lemma design_order_3_returned :
  (3 <> 5)%Z /\
  LPF.design_stepped_lpf LPF.default 3e9 3 <> Raise UnsupportedOrder /\
  exists d,
    LPF.design_stepped_lpf LPF.default 3e9 3 = Ret d /\
    LPF.Z_high d = [Stepped.Z_high 50 0.6180; Stepped.Z_high 50 2.0000] /\
    LPF.Z_low d = [Stepped.Z_low 50 1.6180].
Proof.
  assert (H : LPF.design_stepped_lpf LPF.default 3e9 3 =
              Ret (LPF.mkDesign
                     (Stepped.high_impedances 3) (Stepped.low_impedances 3)
                     (map (Width.narrow 4.4 1.6e-3) (Stepped.high_impedances 3))
                     (map (fun _ => Width.wide 4.4 1.6e-3) (Stepped.low_impedances 3))
                     (constants_c / (3e9 * sqrt 4.4) / 8) (constants_c / (3e9 * sqrt 4.4)))).
  { apply design_stepped_lpf_value; [lra | lra | lia]. }
  split; [lia |]. split.
  - rewrite H. discriminate.
  - eexists. split; [exact H |]. split; reflexivity.
Qed.

(** Bounds of [exp] by repeated squaring from [1 + y <= exp y]. *)

Lemma exp_lower_2_0827 : 7.99 <= exp 2.0827.
Proof.
  replace 2.0827 with (2 * (2 * (2 * (2 * (2 * (2 * (2 * (2 * (2 * (2.0827 / 512)))))))))) by lra.
  apply Rle_trans with 7.9919612; [lra |].
  apply (exp_lower_step _ 2.8270057); [lra | | lra].
  apply (exp_lower_step _ 1.6813702); [lra | | lra].
  apply (exp_lower_step _ 1.2966766); [lra | | lra].
  apply (exp_lower_step _ 1.1387171); [lra | | lra].
  apply (exp_lower_step _ 1.0671069); [lra | | lra].
  apply (exp_lower_step _ 1.0330087); [lra | | lra].
  apply (exp_lower_step _ 1.0163704); [lra | | lra].
  apply (exp_lower_step _ 1.0081520); [lra | | lra].
  apply (exp_lower_step _ (1 + 2.0827 / 512)); [lra | | lra].
  apply exp_ineq1_le.
Qed.

Lemma exp_upper_0_45 : exp 0.45 <= 1.57.
Proof.
  replace 0.45 with (2 * (2 * (2 * (2 * (2 * (2 * (2 * (0.45 / 128)))))))) by lra.
  apply Rle_trans with 1.5695783; [| lra].
  apply (exp_upper_step _ 1.2528281); [| lra].
  apply (exp_upper_step _ 1.1192980); [| lra].
  apply (exp_upper_step _ 1.0579688); [| lra].
  apply (exp_upper_step _ 1.0285761); [| lra].
  apply (exp_upper_step _ 1.0141874); [| lra].
  apply (exp_upper_step _ 1.0070687); [| lra].
  apply (exp_upper_step _ 1.0035281); [| lra].
  apply Rle_trans with (/ (1 - 0.45 / 128)); [apply exp_upper_base; lra |].
  apply Rmult_le_reg_r with (1 - 0.45 / 128); [lra |].
  rewrite Rinv_l by lra. lra.
Qed.

Lemma exp_upper_0_24 : exp 0.24 <= 1.272.
Proof.
  replace 0.24 with (2 * (2 * (2 * (2 * (2 * (2 * (0.24 / 64))))))) by lra.
  apply Rle_trans with 1.2718316; [| lra].
  apply (exp_upper_step _ 1.1277551); [| lra].
  apply (exp_upper_step _ 1.0619581); [| lra].
  apply (exp_upper_step _ 1.0305135); [| lra].
  apply (exp_upper_step _ 1.0151421); [| lra].
  apply (exp_upper_step _ 1.0075426); [| lra].
  apply (exp_upper_step _ 1.0037642); [| lra].
  apply Rle_trans with (/ (1 - 0.24 / 64)); [apply exp_upper_base; lra |].
  apply Rmult_le_reg_r with (1 - 0.24 / 64); [lra |].
  rewrite Rinv_l by lra. lra.
Qed.

Lemma ln_monotone (x y : R) : 0 < x -> x <= y -> ln x <= ln y.
Proof.
  intros Hx [Hlt | ->]; [left; now apply ln_increasing | right; reflexivity].
Qed.

Lemma exp_monotone (x y : R) : x <= y -> exp x <= exp y.
Proof.
  intros [Hlt | ->]; [left; now apply exp_increasing | right; reflexivity].
Qed.

Lemma ln_half_PI_lower : 0.45 <= ln (PI / 2).
Proof.
  pose proof PI_bounds. pose proof exp_upper_0_45.
  rewrite <- (ln_exp 0.45). apply ln_monotone; [apply exp_pos | lra].
Qed.

Lemma ln_4_over_PI_lower : 0.24 <= ln (4 / PI).
Proof.
  pose proof PI_bounds as Hpi. pose proof exp_upper_0_24.
  rewrite <- (ln_exp 0.24). apply ln_monotone; [apply exp_pos |].
  apply Rle_trans with 1.2732; [lra |].
  apply Rmult_le_reg_r with PI; [lra |].
  unfold Rdiv. rewrite Rmult_assoc, Rinv_l by lra. lra.
Qed.

Lemma inv_PI_bounds : 0.3183 < / PI < 0.31833.
Proof.
  pose proof PI_bounds as Hpi.
  assert (Hinv : PI * / PI = 1) by (apply Rinv_r; lra).
  assert (0 < / PI) by (apply Rinv_0_lt_compat; lra).
  split; nra.
Qed.

(** The width of the branch [Z_target < 44] on the default FR4 substrate is
    between 1.05 and 1.33 substrate heights. *)
Lemma wide_default_bounds (h : R) :
  0 < h -> 1.05 * h <= Width.wide 4.4 h <= 1.33 * h.
Proof.
  intros Hh. unfold Width.wide.
  pose proof PI_bounds as Hpi. pose proof inv_PI_bounds as Hip.
  pose proof ln_half_PI_lower as L1. pose proof ln_4_over_PI_lower as L2.
  pose proof (ln_le_minus_1 (PI / 2) ltac:(lra)) as U1.
  pose proof (ln_le_minus_1 (4 / PI) ltac:(apply Rdiv_lt_0_compat; lra)) as U2.
  unfold Rdiv in *.
  set (ip := / PI) in *. set (l1 := ln (PI * / 2)) in *. set (l2 := ln (4 * ip)) in *.
  assert (Hc : 1.05 <= 2 * ip * (4.4 - 1) * l1 + 1 * ip * l2 <= 1.33) by (split; nra).
  split; nra.
Qed.

Lemma Rdiv_lt_cross (a b c d : R) : 0 < b -> 0 < d -> a * d < c * b -> a / b < c / d.
Proof.
  intros Hb Hd H.
  replace (a / b) with (a * d * / (b * d)) by (field; lra).
  replace (c / d) with (c * b * / (b * d)) by (field; lra).
  apply Rmult_lt_compat_r; [| assumption].
  apply Rinv_0_lt_compat, Rmult_lt_0_compat; assumption.
Qed.

(** On the branch [Z_target >= 44] the width is positive and strictly
    decreasing in the impedance. *)
Lemma narrow_pos (er h Z : R) : 1 < er -> 0 < h -> 44 <= Z -> 0 < Width.narrow er h Z.
Proof.
  intros Her Hh HZ. unfold Width.narrow.
  pose proof (exp_2A_gt_2 er Z Her HZ). pose proof (exp_pos (Width.A er Z)).
  apply Rmult_lt_0_compat; [| assumption].
  apply Rdiv_lt_0_compat; lra.
Qed.

Lemma narrow_decreasing (er h Za Zb : R) :
  1 < er -> 0 < h -> 44 <= Za -> Za < Zb ->
  Width.narrow er h Zb < Width.narrow er h Za.
Proof.
  intros Her Hh Ha Hab. unfold Width.narrow.
  pose proof (exp_2A_gt_2 er Za Her Ha) as Ga.
  pose proof (exp_2A_gt_2 er Zb Her ltac:(lra)) as Gb.
  rewrite exp_double in Ga, Gb. rewrite !exp_double.
  assert (HA : Width.A er Za < Width.A er Zb).
  { unfold Width.A.
    assert (1 <= sqrt ((er + 1) / 2)) by (apply sqrt_lower; lra).
    nra. }
  apply exp_increasing in HA.
  pose proof (exp_pos (Width.A er Za)).
  set (ta := exp (Width.A er Za)) in *. set (tb := exp (Width.A er Zb)) in *.
  apply Rmult_lt_compat_r; [assumption |].
  apply Rdiv_lt_cross; [lra | lra |].
  assert (0 < (tb - ta) * (ta * tb + 2)) by (apply Rmult_lt_0_compat; nra).
  nra.
Qed.

(** The first high-impedance section of the default design: its exponent,
    and its width, below 1.04 substrate heights. *)
Lemma A_default_first : 2.0827 <= Width.A 4.4 (Stepped.Z_high 50 0.6180).
Proof.
  unfold Width.A, Stepped.Z_high. pose proof PI_bounds as Hpi.
  assert (Hs1 : 1.40382 <= sqrt (1 + 0.6180 * (PI / 2) * (50 / 50)))
    by (apply sqrt_lower; lra).
  assert (Hs2 : 1.64316 <= sqrt ((4.4 + 1) / 2)) by (apply sqrt_lower; lra).
  set (s1 := sqrt (1 + 0.6180 * (PI / 2) * (50 / 50))) in *.
  set (s2 := sqrt ((4.4 + 1) / 2)) in *.
  nra.
Qed.

Lemma narrow_default_first (h : R) :
  0 < h -> Width.narrow 4.4 h (Stepped.Z_high 50 0.6180) < 1.04 * h.
Proof.
  intros Hh. unfold Width.narrow. rewrite exp_double.
  pose proof A_default_first as HA.
  assert (Ht : 7.99 <= exp (Width.A 4.4 (Stepped.Z_high 50 0.6180))).
  { apply Rle_trans with (exp 2.0827); [apply exp_lower_2_0827 |].
    now apply exp_monotone. }
  set (t := exp (Width.A 4.4 (Stepped.Z_high 50 0.6180))) in *.
  apply Rmult_lt_compat_r; [assumption |].
  replace 1.04 with (1.04 / 1) by lra.
  apply Rdiv_lt_cross; nra.
Qed.

Lemma sections_ordered (Zl Z1 Z2 wl w1 w2 : R) :
  Zl < Z1 -> Z1 < Z2 -> 0 < w2 -> w2 < w1 -> w1 < wl ->
  let secs := [(Z1, w1); (Z2, w2); (Z1, w1); (Zl, wl); (Zl, wl)] in
  Forall (fun s => 0 < snd s) secs /\
  (forall s1 s2, In s1 secs -> In s2 secs -> fst s1 < fst s2 -> snd s2 < snd s1).
Proof.
  intros H1 H2 H3 H4 H5 secs. unfold secs. split.
  - repeat constructor; cbn [snd]; lra.
  - intros s1 s2 I1 I2. cbn [In] in I1, I2.
    repeat (destruct I1 as [<- | I1]); try contradiction;
      repeat (destruct I2 as [<- | I2]); try contradiction;
      cbn [fst snd]; lra.
Qed.

(** On the default substrate the design that
    [LPFDesign().design_stepped_lpf(fc=3e9, n=5)] returns has five sections;
    every width is strictly positive, and of any two sections the one with
    the higher impedance has the strictly narrower width. *)
Theorem default_design_widths :
  exists d,
    LPF.design_stepped_lpf LPF.default 3e9 5 = Ret d /\
    length (LPF.sections d) = 5%nat /\
    Forall (fun s => 0 < snd s) (LPF.sections d) /\
    (forall s1 s2, In s1 (LPF.sections d) -> In s2 (LPF.sections d) ->
                   fst s1 < fst s2 -> snd s2 < snd s1).
Proof.
  unfold LPF.default.
  rewrite design_stepped_lpf_value by (try lra; lia).
  eexists. split; [reflexivity |].
  unfold LPF.sections. cbn [LPF.Z_high LPF.Z_low LPF.widths_high LPF.widths_low].
  change (Stepped.high_impedances 5)
    with [Stepped.Z_high 50 0.6180; Stepped.Z_high 50 2.0000; Stepped.Z_high 50 0.6180].
  change (Stepped.low_impedances 5)
    with [Stepped.Z_low 50 1.6180; Stepped.Z_low 50 1.6180].
  cbn [map combine app].
  split; [reflexivity |].
  pose proof (Z_low_lt_44 1.6180 ltac:(lra)) as Hl.
  pose proof (Z_high_ge_50 0.6180 ltac:(lra)) as H1.
  assert (H12 : Stepped.Z_high 50 0.6180 < Stepped.Z_high 50 2.0000).
  { unfold Stepped.Z_high. pose proof PI_bounds.
    apply Rmult_lt_compat_l; [lra |]. apply sqrt_lt_1_alt. lra. }
  pose proof (narrow_pos 4.4 1.6e-3 (Stepped.Z_high 50 2.0000)
                ltac:(lra) ltac:(lra) ltac:(lra)) as Hpos.
  pose proof (narrow_decreasing 4.4 1.6e-3 (Stepped.Z_high 50 0.6180)
                (Stepped.Z_high 50 2.0000) ltac:(lra) ltac:(lra) ltac:(lra) H12) as Hdec.
  pose proof (narrow_default_first 1.6e-3 ltac:(lra)) as Hn.
  pose proof (wide_default_bounds 1.6e-3 ltac:(lra)) as Hw.
  apply sections_ordered; lra.
Qed.

(** ** Forward formula followed by the inverse *)

Lemma forward_wide_value (self : Microstrip.MicrostripAnalysis) (w : R) :
  0 < w -> 0 < Microstrip.h self -> 1 < Microstrip.er self -> 1 <= w / Microstrip.h self ->
  fst (Microstrip.calc_microstrip_params self w) =
  Ret (Hammerstad.Z0_wide (Microstrip.er self) (Microstrip.h self) w,
       Hammerstad.eff_er_wide (Microstrip.er self) (Microstrip.h self) w).
Proof.
  intros Hw Hh Her Hr. unfold Microstrip.calc_microstrip_params.
  rewrite effective_permittivity_wide by assumption.
  cbn [Microstrip.h Microstrip.set_eff_er].
  rewrite characteristic_impedance_wide; try assumption; [reflexivity |].
  pose proof (eff_er_wide_gt_1 _ _ _ Hw Hh Her). lra.
Qed.

(** The impedance of the 5 mm line of [question_7] on the default substrate
    is below 44 ohm. *)
Lemma Z0_wide_5mm : 0 < Hammerstad.Z0_wide 4.4 1.6e-3 5e-3 < 44.
Proof.
  unfold Hammerstad.Z0_wide, Hammerstad.eff_er_wide.
  pose proof PI_bounds as Hpi.
  assert (Hs : 0 < sqrt (1 + 12 * 1.6e-3 / 5e-3) <= 2.2).
  { split; [apply sqrt_lt_R0; lra | apply sqrt_upper; lra]. }
  assert (Hi : 0.45 <= / sqrt (1 + 12 * 1.6e-3 / 5e-3)).
  { assert (E : sqrt (1 + 12 * 1.6e-3 / 5e-3) * / sqrt (1 + 12 * 1.6e-3 / 5e-3) = 1)
      by (apply Rinv_r; lra).
    assert (0 < / sqrt (1 + 12 * 1.6e-3 / 5e-3)) by (apply Rinv_0_lt_compat; lra).
    nra. }
  assert (He : 1.86 <=
               sqrt ((4.4 + 1) / 2 + (4.4 - 1) / 2 * / sqrt (1 + 12 * 1.6e-3 / 5e-3)))
    by (apply sqrt_lower; lra).
  assert (Hl : 1 <= ln (5e-3 / 1.6e-3 + 1.444)).
  { rewrite <- (ln_exp 1) at 1. pose proof exp_le_3.
    apply ln_monotone; [apply exp_pos | lra]. }
  set (s := sqrt ((4.4 + 1) / 2 + (4.4 - 1) / 2 * / sqrt (1 + 12 * 1.6e-3 / 5e-3))) in *.
  set (l := ln (5e-3 / 1.6e-3 + 1.444)) in *.
  assert (Hd : 9.6 <= s * (5e-3 / 1.6e-3 + 1.393 + 0.667 * l)) by nra.
  split.
  - apply Rdiv_lt_0_compat; lra.
  - replace 44 with (44 / 1) by lra. apply Rdiv_lt_cross; lra.
Qed.

(** C1, at a failing input: the 5 mm line on the default substrate is in the
    wide regime, the forward formula gives it an impedance below 44 ohm, and
    [calc_microstrip_width] answers every impedance below 44 ohm with one and
    the same width, here less than 2.2 mm: the width is not recovered. *)
Theorem round_trip_lost_below_44 :
  exists Z e w',
    1 <= 5e-3 / 1.6e-3 /\
    fst (Microstrip.calc_microstrip_params Microstrip.default 5e-3) = Ret (Z, e) /\
    Z < 44 /\
    LPF.calc_microstrip_width LPF.default Z = Ret w' /\
    w' < 2.2e-3 /\
    (forall Z', Z' < 44 -> LPF.calc_microstrip_width LPF.default Z' = Ret w').
Proof.
  exists (Hammerstad.Z0_wide 4.4 1.6e-3 5e-3), (Hammerstad.eff_er_wide 4.4 1.6e-3 5e-3),
    (Width.wide 4.4 1.6e-3).
  pose proof Z0_wide_5mm as [_ HZ].
  pose proof (wide_default_bounds 1.6e-3 ltac:(lra)) as [_ Hw].
  repeat split.
  - lra.
  - apply (forward_wide_value Microstrip.default 5e-3);
      cbn [Microstrip.default Microstrip.init Microstrip.h Microstrip.er]; lra.
  - exact HZ.
  - now apply (calc_microstrip_width_lt_44 LPF.default).
  - lra.
  - intros Z' HZ'. now apply (calc_microstrip_width_lt_44 LPF.default).
Qed.

(** ** Input validation *)

(** Every exception the calculations can raise is the [ZeroDivisionError] of
    a division or of the negative power. *)
Lemma bind_raises {A B : Type} (m : outcome A) (k : A -> outcome B) :
  raises_only_zero_division m -> (forall a, raises_only_zero_division (k a)) ->
  raises_only_zero_division (x <- m ;; k x).
Proof.
  intros Hm Hk e. destruct m as [a | e' |]; cbn [bind].
  - apply Hk.
  - intros H. apply Hm. congruence.
  - discriminate.
Qed.

Lemma py_div_raises (x y : R) : raises_only_zero_division (py_div x y).
Proof. intros e. unfold py_div. destruct (Req_dec_T y 0); congruence. Qed.

Lemma np_div_raises (x y : R) : raises_only_zero_division (np_div x y).
Proof. intros e. unfold np_div. destruct (Req_dec_T y 0); congruence. Qed.

Lemma py_pow_raises (x : R) : raises_only_zero_division (py_pow_neg_half x).
Proof.
  intros e. unfold py_pow_neg_half.
  destruct (Req_dec_T x 0); [congruence |]. destruct (Rlt_dec x 0); congruence.
Qed.

Lemma np_sqrt_raises (x : R) : raises_only_zero_division (np_sqrt x).
Proof. intros e. unfold np_sqrt. destruct (Rlt_dec x 0); congruence. Qed.

Lemma np_log_raises (x : R) : raises_only_zero_division (np_log x).
Proof. intros e. unfold np_log. destruct (Rle_dec x 0); congruence. Qed.

Lemma Ret_raises {A : Type} (a : A) : raises_only_zero_division (Ret a).
Proof. intros e. congruence. Qed.

Ltac raises :=
  repeat first
    [ apply py_div_raises | apply np_div_raises | apply py_pow_raises
    | apply np_sqrt_raises | apply np_log_raises | apply Ret_raises
    | apply bind_raises; [| intros ?]
    | match goal with |- raises_only_zero_division (if ?b then _ else _) => destruct b end ].

Lemma params_of_raises (er h w : R) : raises_only_zero_division (params_of er h w).
Proof.
  unfold params_of, Microstrip.effective_permittivity, Microstrip.characteristic_impedance.
  raises.
Qed.

Lemma calc_microstrip_width_raises (self : LPF.LPFDesign) (Z : R) :
  raises_only_zero_division (LPF.calc_microstrip_width self Z).
Proof. unfold LPF.calc_microstrip_width. raises. Qed.

Lemma calc_s_parameters_result (self : Microstrip.MicrostripAnalysis) (w length : R) :
  fst (Microstrip.calc_s_parameters self w length) =
  (p <- fst (Microstrip.calc_microstrip_params self w) ;;
   let self' := snd (Microstrip.calc_microstrip_params self w) in
   let samples :=
     map (Microstrip.line_sample self' (fst p) (snd p) length)
         (Microstrip.f self') in
   Ret (map Microstrip.sample_fst samples, map Microstrip.sample_snd samples,
        map Microstrip.sample_snd samples, map Microstrip.sample_fst samples, fst p)).
Proof.
  unfold Microstrip.calc_s_parameters.
  destruct (Microstrip.calc_microstrip_params self w) as [[[z e] | x |] self'];
    reflexivity.
Qed.

(** C3, as the code has it: no formula validates its geometry, and none
    answers [InvalidGeometry].  A zero height or a zero width reaches the
    arithmetic of the forward calculation and raises [ZeroDivisionError];
    the inverse calculation raises nothing but [ZeroDivisionError] and
    multiplies by the height whatever its sign; and the S-parameter
    calculation returns its arrays for every length as soon as the forward
    calculation returns. *)
Theorem geometry_unchecked :
  (forall self w, Microstrip.h self = 0 \/ w = 0 ->
     fst (Microstrip.calc_microstrip_params self w) = Raise ZeroDivisionError) /\
  (forall self w,
     fst (Microstrip.calc_microstrip_params self w) <> Raise InvalidGeometry) /\
  (forall self Z e, LPF.calc_microstrip_width self Z = Raise e -> e = ZeroDivisionError) /\
  (forall self Z, Z < 44 ->
     LPF.calc_microstrip_width self Z = Ret (Width.wide (LPF.er self) (LPF.h self))) /\
  (forall self w length,
     fst (Microstrip.calc_s_parameters self w length) <> Raise InvalidGeometry) /\
  (forall self w length p, fst (Microstrip.calc_microstrip_params self w) = Ret p ->
     exists r, fst (Microstrip.calc_s_parameters self w length) = Ret r).
Proof.
  assert (Hparams : forall self w,
            fst (Microstrip.calc_microstrip_params self w) <> Raise InvalidGeometry).
  { intros self w H. rewrite calc_microstrip_params_result in H.
    apply params_of_raises in H. discriminate. }
  split; [| split; [exact Hparams | split; [| split; [| split]]]].
  - intros self w Hz. rewrite calc_microstrip_params_result.
    unfold params_of, Microstrip.effective_permittivity.
    destruct (Req_dec_T (Microstrip.h self) 0) as [Hh | Hh].
    + rewrite Hh, py_div_zero. reflexivity.
    + destruct Hz as [Hz | ->]; [contradiction |].
      rewrite py_div_nz by assumption. cbn [bind].
      destruct (Rle_dec 1 (0 / Microstrip.h self)) as [Hr | Hr].
      * unfold Rdiv in Hr. rewrite Rmult_0_l in Hr. lra.
      * rewrite py_div_zero. reflexivity.
  - intros self Z e. apply calc_microstrip_width_raises.
  - intros self Z HZ. now apply calc_microstrip_width_lt_44.
  - intros self w length H. rewrite calc_s_parameters_result in H.
    destruct (fst (Microstrip.calc_microstrip_params self w)) as [p | x |] eqn:E;
      cbn [bind] in H; try discriminate.
    injection H as ->. now apply (Hparams self w).
  - intros self w length p Hp. rewrite calc_s_parameters_result, Hp.
    cbn [bind]. eauto.
Qed.

Lemma geometry_unchecked_witness :
  fst (Microstrip.calc_microstrip_params Microstrip.default 0) = Raise ZeroDivisionError /\
  LPF.calc_microstrip_width (LPF.init 4.4 (-1.6e-3) 0.025) 30 =
    Ret (Width.wide 4.4 (-1.6e-3)).
Proof.
  destruct geometry_unchecked as (Hzero & _ & _ & Hwide & _).
  split.
  - apply Hzero. right. reflexivity.
  - apply (Hwide (LPF.init 4.4 (-1.6e-3) 0.025) 30). lra.
Defined.

(** A zero width is answered by [ZeroDivisionError], and a negative height by
    a negative width: neither is rejected as [InvalidGeometry]. *)
Lemma invalid_geometry_not_rejected :
  fst (Microstrip.calc_microstrip_params Microstrip.default 0) = Raise ZeroDivisionError /\
  fst (Microstrip.calc_microstrip_params Microstrip.default 0) <> Raise InvalidGeometry /\
  -1.6e-3 <= 0 /\
  LPF.calc_microstrip_width (LPF.init 4.4 (-1.6e-3) 0.025) 30 =
    Ret (Width.wide 4.4 (-1.6e-3)) /\
  Width.wide 4.4 (-1.6e-3) < 0.
Proof.
  assert (H0 : fst (Microstrip.calc_microstrip_params Microstrip.default 0) =
               Raise ZeroDivisionError).
  { rewrite calc_microstrip_params_result.
    unfold params_of, Microstrip.effective_permittivity.
    cbn [Microstrip.default Microstrip.init Microstrip.h Microstrip.er].
    rewrite py_div_nz by lra. cbn [bind].
    destruct (Rle_dec 1 (0 / 1.6e-3)) as [Hr | Hr]; [lra |].
    rewrite py_div_zero. reflexivity. }
  split; [exact H0 |]. split; [rewrite H0; discriminate |].
  split; [lra |]. split.
  - apply (calc_microstrip_width_lt_44 (LPF.init 4.4 (-1.6e-3) 0.025)). lra.
  - pose proof (wide_default_bounds 1.6e-3 ltac:(lra)) as [Hlo _].
    unfold Width.wide in *.
    set (k := 2 / PI * (4.4 - 1) * ln (PI / 2) + 1 / PI * ln (4 / PI)) in *.
    lra.
Qed.

Lemma exp_upper_1_585 : exp 1.585 <= 4.95.
Proof.
  replace 1.585 with (2 * (2 * (2 * (2 * (2 * (2 * (2 * (2 * (1.585 / 256))))))))) by lra.
  apply Rle_trans with 4.9035094; [| lra].
  apply (exp_upper_step _ 2.2143869); [| lra].
  apply (exp_upper_step _ 1.4880816); [| lra].
  apply (exp_upper_step _ 1.2198695); [| lra].
  apply (exp_upper_step _ 1.1044770); [| lra].
  apply (exp_upper_step _ 1.0509410); [| lra].
  apply (exp_upper_step _ 1.0251541); [| lra].
  apply (exp_upper_step _ 1.0124989); [| lra].
  apply (exp_upper_step _ 1.0062300); [| lra].
  apply Rle_trans with (/ (1 - 1.585 / 256)); [apply exp_upper_base; lra |].
  apply Rmult_le_reg_r with (1 - 1.585 / 256); [lra |].
  rewrite Rinv_l by lra. lra.
Qed.

(** C4, at a failing input: the ordering of widths by impedance is not met
    by the design that [LPFDesign(er=2.2).design_stepped_lpf(fc=3e9, n=5)]
    returns.  Its low-impedance sections (26.6 ohm) are narrower than its
    first high-impedance section (70.2 ohm): the branch [Z_target < 44] of
    [calc_microstrip_width] does not read the impedance and gives at most
    0.53 substrate heights, the branch [Z_target >= 44] gives at least 1.7 at
    70.2 ohm. *)
Lemma design_er_2_2_not_ordered :
  exists d s1 s2,
    LPF.design_stepped_lpf (LPF.init 2.2 1.6e-3 0.025) 3e9 5 = Ret d /\
    In s1 (LPF.sections d) /\ In s2 (LPF.sections d) /\
    fst s1 < fst s2 /\ snd s1 < snd s2.
Proof.
  rewrite design_stepped_lpf_value by (try lra; lia).
  eexists.
  exists (Stepped.Z_low 50 1.6180, Width.wide 2.2 1.6e-3),
         (Stepped.Z_high 50 0.6180, Width.narrow 2.2 1.6e-3 (Stepped.Z_high 50 0.6180)).
  split; [reflexivity |].
  unfold LPF.sections. cbn [LPF.Z_high LPF.Z_low LPF.widths_high LPF.widths_low].
  change (Stepped.high_impedances 5)
    with [Stepped.Z_high 50 0.6180; Stepped.Z_high 50 2.0000; Stepped.Z_high 50 0.6180].
  change (Stepped.low_impedances 5)
    with [Stepped.Z_low 50 1.6180; Stepped.Z_low 50 1.6180].
  cbn [map combine app In fst snd].
  split; [auto 6 |]. split; [auto |].
  pose proof (Z_low_lt_44 1.6180 ltac:(lra)) as Hl.
  pose proof (Z_high_ge_50 0.6180 ltac:(lra)) as H1.
  split; [lra |].
  pose proof PI_bounds as Hpi. pose proof inv_PI_bounds as Hip.
  (* the width of the low-impedance sections *)
  assert (Hwide : Width.wide 2.2 1.6e-3 <= 0.53 * 1.6e-3).
  { unfold Width.wide.
    pose proof (ln_le_minus_1 (PI / 2) ltac:(lra)) as U1.
    pose proof (ln_le_minus_1 (4 / PI) ltac:(apply Rdiv_lt_0_compat; lra)) as U2.
    assert (L1 : 0 <= ln (PI / 2)).
    { rewrite <- ln_1. apply ln_monotone; lra. }
    unfold Rdiv in *.
    set (ip := / PI) in *. set (l1 := ln (PI * / 2)) in *. set (l2 := ln (4 * ip)) in *.
    nra. }
  (* the width of the first high-impedance section *)
  assert (HA : Width.A 2.2 (Stepped.Z_high 50 0.6180) <= 1.585).
  { unfold Width.A. unfold Stepped.Z_high in *.
    assert (Hs1 : sqrt (1 + 0.6180 * (PI / 2) * (50 / 50)) <= 1.40384)
      by (apply sqrt_upper; lra).
    assert (Hs2 : 0 <= sqrt ((2.2 + 1) / 2) <= 1.265)
      by (split; [apply sqrt_pos | apply sqrt_upper; lra]).
    set (s1 := sqrt (1 + 0.6180 * (PI / 2) * (50 / 50))) in *.
    set (s2 := sqrt ((2.2 + 1) / 2)) in *.
    nra. }
  apply exp_monotone in HA. pose proof exp_upper_1_585 as Hup.
  pose proof (exp_2A_gt_2 2.2 (Stepped.Z_high 50 0.6180) ltac:(lra) ltac:(lra)) as H2.
  unfold Width.narrow. rewrite exp_double in *.
  set (t := exp (Width.A 2.2 (Stepped.Z_high 50 0.6180))) in *.
  assert (Ht : 0 < t) by apply exp_pos.
  apply Rle_lt_trans with (0.53 * 1.6e-3); [exact Hwide |].
  apply Rmult_lt_compat_r; [lra |].
  replace 0.53 with (0.53 / 1) by lra.
  apply Rdiv_lt_cross; nra.
Qed.

(** * Further properties of the three scripts *)

(** ** The forward formulas: ranges and monotonicity *)

Lemma inv_sqrt_base_lt_1 (h w : R) : 0 < w -> 0 < h -> / sqrt (1 + 12 * h / w) < 1.
Proof.
  intros Hw Hh.
  assert (Hb : 0 < 12 * h / w) by (apply Rdiv_lt_0_compat; lra).
  assert (Hs : 1 < sqrt (1 + 12 * h / w)).
  { rewrite <- sqrt_1 at 1. apply sqrt_lt_1_alt. lra. }
  apply Rmult_lt_reg_r with (sqrt (1 + 12 * h / w)); [lra |].
  rewrite Rinv_l by lra. lra.
Qed.

Lemma forward_narrow_value (self : Microstrip.MicrostripAnalysis) (w : R) :
  0 < w -> 0 < Microstrip.h self -> 1 < Microstrip.er self -> w / Microstrip.h self < 1 ->
  fst (Microstrip.calc_microstrip_params self w) =
  Ret (Hammerstad.Z0_narrow (Microstrip.er self) (Microstrip.h self) w,
       Hammerstad.eff_er_narrow (Microstrip.er self) (Microstrip.h self) w).
Proof.
  intros Hw Hh Her Hr. unfold Microstrip.calc_microstrip_params.
  rewrite effective_permittivity_narrow by assumption.
  cbn [Microstrip.h Microstrip.set_eff_er].
  rewrite characteristic_impedance_narrow; try assumption; [reflexivity |].
  pose proof (eff_er_narrow_gt_1 _ _ _ Hw Hh Her). lra.
Qed.

Lemma eff_er_wide_lt_er (er h w : R) :
  0 < w -> 0 < h -> 1 < er -> Hammerstad.eff_er_wide er h w < er.
Proof.
  intros Hw Hh Her. unfold Hammerstad.eff_er_wide.
  pose proof (inv_sqrt_base_lt_1 h w Hw Hh). nra.
Qed.

Lemma eff_er_narrow_lt_er (er h w : R) :
  0 < w -> 0 < h -> 1 < er -> w / h < 1 -> Hammerstad.eff_er_narrow er h w < er.
Proof.
  intros Hw Hh Her Hr. unfold Hammerstad.eff_er_narrow.
  pose proof (ratio_pos h w Hw Hh) as Hr0.
  (* below [w = h] the base [1 + 12 h/w] exceeds 13, so its inverse root is
     below 0.3; the correction term is below 0.04 *)
  assert (Hb : 13 < 1 + 12 * h / w).
  { assert (1 < h / w).
    { apply Rmult_lt_reg_r with w; [assumption |].
      unfold Rdiv. rewrite Rmult_assoc, Rinv_l by lra.
      apply Rmult_lt_reg_r with (/ h); [now apply Rinv_0_lt_compat |].
      replace (h * 1 * / h) with (h * / h) by ring. rewrite Rinv_r by lra.
      unfold Rdiv in Hr. lra. }
    unfold Rdiv in *. lra. }
  assert (Hs : 3.6 <= sqrt (1 + 12 * h / w)) by (apply sqrt_lower; lra).
  assert (Hp : / sqrt (1 + 12 * h / w) < 0.3).
  { apply Rmult_lt_reg_r with (sqrt (1 + 12 * h / w)); [lra |].
    rewrite Rinv_l by lra. lra. }
  assert (Hc : (1 - w / h) ^ 2 <= 1).
  { replace ((1 - w / h) ^ 2) with ((1 - w / h) * (1 - w / h)) by ring. nra. }
  nra.
Qed.

Lemma Z0_wide_pos (er h w : R) :
  0 < w -> 0 < h -> 1 < er -> 1 <= w / h -> 0 < Hammerstad.Z0_wide er h w.
Proof.
  intros Hw Hh Her Hr. unfold Hammerstad.Z0_wide.
  pose proof (eff_er_wide_gt_1 _ _ _ Hw Hh Her) as H1.
  pose proof PI_RGT_0 as Hpi.
  assert (0 < sqrt (Hammerstad.eff_er_wide er h w)) by (apply sqrt_lt_R0; lra).
  assert (0 < ln (w / h + 1.444)).
  { rewrite <- ln_1. apply ln_increasing; lra. }
  apply Rdiv_lt_0_compat; [lra |]. apply Rmult_lt_0_compat; lra.
Qed.

Lemma inverse_ratio_gt_1 (h w : R) : 0 < w -> 0 < h -> w / h < 1 -> 1 < h / w.
Proof.
  intros Hw Hh Hr.
  assert (Hwh : w < h).
  { apply Rmult_lt_reg_r with (/ h); [now apply Rinv_0_lt_compat |].
    rewrite Rinv_r by lra. exact Hr. }
  apply Rmult_lt_reg_r with w; [assumption |].
  unfold Rdiv. rewrite Rmult_assoc, Rinv_l by lra. lra.
Qed.

Lemma Z0_narrow_pos (er h w : R) :
  0 < w -> 0 < h -> 1 < er -> w / h < 1 -> 0 < Hammerstad.Z0_narrow er h w.
Proof.
  intros Hw Hh Her Hr. unfold Hammerstad.Z0_narrow.
  pose proof (eff_er_narrow_gt_1 _ _ _ Hw Hh Her) as H1.
  assert (0 < sqrt (Hammerstad.eff_er_narrow er h w)) by (apply sqrt_lt_R0; lra).
  assert (0 < ln (8 * h / w + w / (4 * h))).
  { rewrite <- ln_1. apply ln_increasing; [lra |].
    assert (0 < w / (4 * h)) by (apply Rdiv_lt_0_compat; lra).
    pose proof (inverse_ratio_gt_1 h w Hw Hh Hr).
    unfold Rdiv in *. lra. }
  apply Rmult_lt_0_compat; [apply Rdiv_lt_0_compat; lra | assumption].
Qed.

(** On a physical line the forward calculation returns, with a positive
    impedance and an effective permittivity above 1. *)
Lemma forward_positive (self : Microstrip.MicrostripAnalysis) (w : R) :
  0 < w -> 0 < Microstrip.h self -> 1 < Microstrip.er self ->
  exists Z0 eff_er,
    fst (Microstrip.calc_microstrip_params self w) = Ret (Z0, eff_er) /\
    0 < Z0 /\ 1 < eff_er.
Proof.
  intros Hw Hh Her.
  destruct (Rle_lt_dec 1 (w / Microstrip.h self)) as [Hr | Hr].
  - rewrite forward_wide_value by assumption. do 2 eexists. split; [reflexivity |].
    split; [now apply Z0_wide_pos | now apply eff_er_wide_gt_1].
  - rewrite forward_narrow_value by assumption. do 2 eexists. split; [reflexivity |].
    split; [now apply Z0_narrow_pos | now apply eff_er_narrow_gt_1].
Qed.

(** X1: the value returned on a physical line: a positive impedance and an
    effective permittivity strictly between the mean [(er+1)/2] of air and
    substrate and the substrate's own [er]. *)
Theorem calc_microstrip_params_range (self : Microstrip.MicrostripAnalysis) (w : R) :
  0 < w -> 0 < Microstrip.h self -> 1 < Microstrip.er self ->
  exists Z0 eff_er,
    fst (Microstrip.calc_microstrip_params self w) = Ret (Z0, eff_er) /\
    0 < Z0 /\
    (Microstrip.er self + 1) / 2 < eff_er < Microstrip.er self.
Proof.
  intros Hw Hh Her.
  pose proof (inv_sqrt_base_pos _ _ Hw Hh) as Hp.
  destruct (Rle_lt_dec 1 (w / Microstrip.h self)) as [Hr | Hr].
  - rewrite forward_wide_value by assumption. do 2 eexists. split; [reflexivity |].
    split; [now apply Z0_wide_pos |].
    split; [| now apply eff_er_wide_lt_er].
    unfold Hammerstad.eff_er_wide. nra.
  - rewrite forward_narrow_value by assumption. do 2 eexists. split; [reflexivity |].
    split; [now apply Z0_narrow_pos |].
    split; [| now apply eff_er_narrow_lt_er].
    unfold Hammerstad.eff_er_narrow.
    pose proof (pow2_ge_0 (1 - w / Microstrip.h self)).
    assert (0 <= 0.04 * (1 - w / Microstrip.h self) ^ 2) by lra.
    nra.
Qed.

Lemma calc_microstrip_params_range_witness :
  exists Z0 eff_er,
    fst (Microstrip.calc_microstrip_params Microstrip.default 2e-3) = Ret (Z0, eff_er) /\
    0 < Z0 /\ (4.4 + 1) / 2 < eff_er < 4.4.
Proof.
  apply (calc_microstrip_params_range Microstrip.default 2e-3);
    cbn [Microstrip.default Microstrip.init Microstrip.h Microstrip.er]; lra.
Defined.

Lemma ratio_ge_1 (h w : R) : 0 < h -> h <= w -> 1 <= w / h.
Proof.
  intros Hh Hw. apply Rmult_le_reg_r with h; [assumption |].
  unfold Rdiv. rewrite Rmult_assoc, Rinv_l by lra. lra.
Qed.

Lemma Rdiv_lt_denominator (a x y : R) : 0 < a -> 0 < x -> x < y -> a / y < a / x.
Proof.
  intros Ha Hx Hxy. unfold Rdiv. apply Rmult_lt_compat_l; [assumption |].
  apply Rinv_lt_contravar; [apply Rmult_lt_0_compat; lra | assumption].
Qed.

Lemma eff_er_wide_increasing (er h w1 w2 : R) :
  0 < h -> 1 < er -> 0 < w1 -> w1 < w2 ->
  Hammerstad.eff_er_wide er h w1 < Hammerstad.eff_er_wide er h w2.
Proof.
  intros Hh Her Hw1 Hw12. unfold Hammerstad.eff_er_wide.
  assert (Hq : 12 * h / w2 < 12 * h / w1) by (apply Rdiv_lt_denominator; lra).
  assert (Hq2 : 0 < 12 * h / w2) by (apply Rdiv_lt_0_compat; lra).
  assert (Hs : sqrt (1 + 12 * h / w2) < sqrt (1 + 12 * h / w1))
    by (apply sqrt_lt_1_alt; lra).
  assert (Hs2 : 0 < sqrt (1 + 12 * h / w2)) by (apply sqrt_lt_R0; lra).
  assert (Hi : / sqrt (1 + 12 * h / w1) < / sqrt (1 + 12 * h / w2)).
  { apply Rinv_lt_contravar; [apply Rmult_lt_0_compat; lra | assumption]. }
  nra.
Qed.

(** X2: in the wide regime a wider line has the lower impedance and the higher
    effective permittivity. *)
Theorem wide_line_impedance_decreasing (self : Microstrip.MicrostripAnalysis) (w1 w2 : R) :
  0 < Microstrip.h self -> 1 < Microstrip.er self ->
  Microstrip.h self <= w1 -> w1 < w2 ->
  exists Z1 e1 Z2 e2,
    fst (Microstrip.calc_microstrip_params self w1) = Ret (Z1, e1) /\
    fst (Microstrip.calc_microstrip_params self w2) = Ret (Z2, e2) /\
    Z2 < Z1 /\ e1 < e2.
Proof.
  intros Hh Her Hw1 Hw12.
  pose proof (ratio_ge_1 _ _ Hh Hw1) as Hr1.
  pose proof (ratio_ge_1 (Microstrip.h self) w2 Hh ltac:(lra)) as Hr2.
  rewrite !forward_wide_value by (try assumption; lra).
  do 4 eexists. split; [reflexivity |]. split; [reflexivity |].
  pose proof (eff_er_wide_increasing (Microstrip.er self) _ w1 w2 Hh Her ltac:(lra) Hw12)
    as He.
  split; [| exact He].
  pose proof (eff_er_wide_gt_1 (Microstrip.er self) (Microstrip.h self) w1
                ltac:(lra) Hh Her) as G1.
  unfold Hammerstad.Z0_wide.
  set (e1 := Hammerstad.eff_er_wide (Microstrip.er self) (Microstrip.h self) w1) in *.
  set (e2 := Hammerstad.eff_er_wide (Microstrip.er self) (Microstrip.h self) w2) in *.
  assert (Hs : 0 < sqrt e1 < sqrt e2).
  { split; [apply sqrt_lt_R0; lra | apply sqrt_lt_1_alt; lra]. }
  assert (Hr : w1 / Microstrip.h self < w2 / Microstrip.h self).
  { unfold Rdiv. apply Rmult_lt_compat_r; [now apply Rinv_0_lt_compat | assumption]. }
  assert (Hl : 0 < ln (w1 / Microstrip.h self + 1.444) <
               ln (w2 / Microstrip.h self + 1.444)).
  { split; [rewrite <- ln_1 |]; apply ln_increasing; lra. }
  pose proof PI_RGT_0 as Hpi.
  apply Rdiv_lt_denominator; [lra | apply Rmult_lt_0_compat; lra |].
  apply Rmult_le_0_lt_compat; lra.
Qed.

Lemma wide_line_impedance_decreasing_witness :
  exists Z1 e1 Z2 e2,
    fst (Microstrip.calc_microstrip_params Microstrip.default 2e-3) = Ret (Z1, e1) /\
    fst (Microstrip.calc_microstrip_params Microstrip.default 5e-3) = Ret (Z2, e2) /\
    Z2 < Z1 /\ e1 < e2.
Proof.
  apply (wide_line_impedance_decreasing Microstrip.default 2e-3 5e-3);
    cbn [Microstrip.default Microstrip.init Microstrip.h Microstrip.er]; lra.
Defined.

(** ** The transmission line: general samples *)

Lemma Cexp_propagation (a b l : R) :
  Cexp (Cmul (Cneg (Cadd (RtoC a) (Cmul Ci (RtoC b)))) (RtoC l)) =
  mkC (exp (- (a * l)) * cos (- (b * l))) (exp (- (a * l)) * sin (- (b * l))).
Proof.
  unfold Cexp, Cmul, Cneg, Cadd, Ci, RtoC; cbn [Re Im].
  f_equal; f_equal; f_equal; ring.
Qed.

Lemma reflection_bounds (Z0 : R) : 0 < Z0 -> -1 < (Z0 - 50) / (Z0 + 50) < 1.
Proof.
  intros HZ. split.
  - apply Rmult_lt_reg_r with (Z0 + 50); [lra |].
    unfold Rdiv. rewrite Rmult_assoc, Rinv_l by lra. lra.
  - apply Rmult_lt_reg_r with (Z0 + 50); [lra |].
    unfold Rdiv. rewrite Rmult_assoc, Rinv_l by lra. lra.
Qed.

Lemma Cnorm2_nonneg (a : C) : 0 <= Cnorm2 a.
Proof. unfold Cnorm2. nra. Qed.

Lemma Cmod_sq (a : C) : Cmod a ^ 2 = Cnorm2 a.
Proof.
  unfold Cmod. replace (sqrt (Cnorm2 a) ^ 2) with (sqrt (Cnorm2 a) * sqrt (Cnorm2 a)) by ring.
  apply sqrt_sqrt, Cnorm2_nonneg.
Qed.

Lemma Cnorm2_Cmul (a b : C) : Cnorm2 (Cmul a b) = Cnorm2 a * Cnorm2 b.
Proof. unfold Cnorm2, Cmul; cbn [Re Im]. ring. Qed.

Lemma Cnorm2_Cdiv (a b q : C) : Cdiv a b = Ret q -> Cnorm2 q = Cnorm2 a / Cnorm2 b.
Proof.
  unfold Cdiv. destruct (Req_dec_T (Cnorm2 b) 0) as [| Hb]; intros H; [discriminate |].
  injection H as <-. unfold Cnorm2 in *; cbn [Re Im]. field. exact Hb.
Qed.

(** A sample of the script's own [calc_s_parameters] on its regular domain:
    the two quotients, with [exp(-gamma l)] written out. *)
Lemma line_sample_regular (self : Microstrip.MicrostripAnalysis) (Z0 eff length fi : R) :
  Microstrip.c self <> 0 -> 0 <= eff -> 0 <= fi -> Z0 + 50 <> 0 ->
  Microstrip.line_sample self Z0 eff length fi =
  let rho := (Z0 - 50) / (Z0 + 50) in
  let exp_gl :=
    mkC (exp (- (alpha_of self eff fi * length)) * cos (- (beta_of self eff fi * length)))
        (exp (- (alpha_of self eff fi * length)) * sin (- (beta_of self eff fi * length))) in
  let den := Csub (RtoC 1) (Cmul (RtoC (rho ^ 2)) (Cmul exp_gl exp_gl)) in
  (S11 <- Cdiv (Cmul (RtoC rho) (Csub (RtoC 1) (Cmul exp_gl exp_gl))) den ;;
   S21 <- Cdiv (Cmul exp_gl (RtoC (1 - rho ^ 2))) den ;;
   Ret (S11, S21)).
Proof.
  intros Hc He Hf HZ.
  unfold Microstrip.line_sample, Microstrip.propagation_constant,
    Microstrip.phase_constant, Microstrip.conductor_loss.
  rewrite !np_sqrt_nonneg by assumption. cbn [bind].
  rewrite !np_div_nz by assumption. cbn [bind].
  rewrite Cexp_propagation. reflexivity.
Qed.


Lemma phasor_norm (m t : R) : m * cos t * (m * cos t) + m * sin t * (m * sin t) = m * m.
Proof.
  replace (m * cos t * (m * cos t) + m * sin t * (m * sin t))
    with (m * m * ((sin t)² + (cos t)²)) by (unfold Rsqr; ring).
  rewrite sin2_cos2. ring.
Qed.

(** A line of length zero: [exp(-gamma*0) = 1], no reflection and full
    transmission whatever the mismatch. *)
Lemma line_sample_zero_length (self : Microstrip.MicrostripAnalysis) (Z0 eff fi : R) :
  Microstrip.c self <> 0 -> 0 <= eff -> 0 <= fi -> 0 < Z0 ->
  Microstrip.line_sample self Z0 eff 0 fi =
  Ret (RtoC 0, RtoC 1).
Proof.
  intros Hc He Hf HZ.
  rewrite line_sample_regular by (try assumption; lra). cbv zeta.
  pose proof (reflection_bounds Z0 HZ) as Hr.
  set (r := (Z0 - 50) / (Z0 + 50)) in *.
  rewrite !Rmult_0_r, Ropp_0, exp_0, cos_0, sin_0.
  assert (Hn : Cnorm2 (Csub (RtoC 1)
                 (Cmul (RtoC (r ^ 2)) (Cmul (mkC (1 * 1) (1 * 0)) (mkC (1 * 1) (1 * 0))))) =
               (1 - r * r) * (1 - r * r)).
  { unfold Cnorm2, Csub, Cmul, RtoC; cbn [Re Im]. ring. }
  assert (Hpos : 0 < 1 - r * r) by nra.
  rewrite !Cdiv_nz by (rewrite Hn; nra). cbn [bind]. rewrite Hn.
  unfold Csub, Cmul, RtoC; cbn [Re Im].
  do 2 f_equal; f_equal; field; nra.
Qed.

(** X3: with a zero [length], [calc_s_parameters] reports no reflection,
    [S11 = 0], and a transmission that carries the whole power,
    [|S11|^2 + |S21|^2 = 1], at every sample of the sweep that is not
    negative, for every physical line, matched or not. *)
Theorem zero_length_line_transparent (self : Microstrip.MicrostripAnalysis)
  (w fi : R) (i : nat) :
  0 < w -> 0 < Microstrip.h self -> 1 < Microstrip.er self ->
  Microstrip.c self <> 0 ->
  nth_error (Microstrip.f self) i = Some fi -> 0 <= fi ->
  exists S11 S21 S12 S22 Z0 r t,
    fst (Microstrip.calc_s_parameters self w 0) = Ret (S11, S21, S12, S22, Z0) /\
    nth_error S11 i = Some (Ret r) /\
    nth_error S21 i = Some (Ret t) /\
    r = RtoC 0 /\
    Cnorm2 r + Cnorm2 t = 1.
Proof.
  intros Hw Hh Her Hc Hi Hf.
  destruct (forward_positive self w Hw Hh Her) as (Z0 & eff & Hp & HZ & He).
  pose proof (calc_microstrip_params_frame self w) as (Ft & Ff & Fc).
  rewrite calc_s_parameters_result, Hp. cbn [bind fst snd].
  do 5 eexists. exists (RtoC 0), (RtoC 1). split; [reflexivity |].
  rewrite !nth_error_map, Ff, Hi. cbn [option_map].
  rewrite line_sample_zero_length by (try assumption; try lra; congruence).
  split; [reflexivity |]. split; [reflexivity |]. split; [reflexivity |].
  unfold Cnorm2, RtoC; cbn [Re Im]. ring.
Qed.

Lemma zero_length_line_transparent_witness :
  exists S11 S21 S12 S22 Z0 r t,
    fst (Microstrip.calc_s_parameters (Microstrip.init 4.4 1.6e-3 0.025 (1e9, 10e9, 10%nat))
           2e-3 0) = Ret (S11, S21, S12, S22, Z0) /\
    nth_error S11 0 = Some (Ret r) /\
    nth_error S21 0 = Some (Ret t) /\
    r = RtoC 0 /\
    Cnorm2 r + Cnorm2 t = 1.
Proof.
  apply (zero_length_line_transparent
           (Microstrip.init 4.4 1.6e-3 0.025 (1e9, 10e9, 10%nat)) 2e-3 1e9 0);
    cbn [Microstrip.init Microstrip.h Microstrip.er Microstrip.c Microstrip.f];
    try (unfold constants_c; lra).
  cbn [np_linspace seq map nth_error]. f_equal. simpl INR. lra.
Defined.

(** A sample of a physical line of positive length at a positive frequency:
    the reflected and the transmitted power add up to less than 1. *)
Lemma line_sample_power (self : Microstrip.MicrostripAnalysis) (Z0 eff length fi : R) :
  0 < Microstrip.c self -> 0 <= Microstrip.tand self -> 0 <= eff ->
  0 < fi -> 0 < Z0 -> 0 < length ->
  exists S11 S21,
    Microstrip.line_sample self Z0 eff length fi = Ret (S11, S21) /\
    Cnorm2 S11 + Cnorm2 S21 < 1.
Proof.
  intros Hc Ht He Hf HZ Hl.
  rewrite line_sample_regular by lra. cbv zeta.
  pose proof (reflection_bounds Z0 HZ) as Hr.
  set (r := (Z0 - 50) / (Z0 + 50)) in *.
  assert (Ha : 0 < alpha_of self eff fi).
  { unfold alpha_of. pose proof PI_RGT_0. pose proof (sqrt_pos eff).
    pose proof (sqrt_lt_R0 fi Hf).
    assert (0 <= PI * fi * sqrt eff * Microstrip.tand self / Microstrip.c self).
    { apply Rmult_le_pos; [| left; now apply Rinv_0_lt_compat].
      apply Rmult_le_pos; [apply Rmult_le_pos; [nra | lra] | lra]. }
    lra. }
  set (m := exp (- (alpha_of self eff fi * length))).
  assert (Hm : 0 < m < 1).
  { split; [apply exp_pos |]. unfold m. rewrite <- exp_0. apply exp_increasing. nra. }
  pose proof (phasor_norm m (- (beta_of self eff fi * length))) as HM.
  set (x := m * cos (- (beta_of self eff fi * length))) in *.
  set (y := m * sin (- (beta_of self eff fi * length))) in *.
  set (den := Csub (RtoC 1) (Cmul (RtoC (r ^ 2)) (Cmul (mkC x y) (mkC x y)))).
  set (n11 := Cmul (RtoC r) (Csub (RtoC 1) (Cmul (mkC x y) (mkC x y)))).
  set (n21 := Cmul (mkC x y) (RtoC (1 - r ^ 2))).
  assert (Hid : Cnorm2 den - (Cnorm2 n11 + Cnorm2 n21) =
                (1 - r * r) * (1 - (x * x + y * y)) * (1 + r * r * (x * x + y * y))).
  { unfold den, n11, n21, Cnorm2, Csub, Cmul, RtoC; cbn [Re Im]. ring. }
  rewrite HM in Hid.
  assert (Hgap : 0 < (1 - r * r) * (1 - m * m) * (1 + r * r * (m * m))).
  { repeat apply Rmult_lt_0_compat; nra. }
  pose proof (Cnorm2_nonneg n11). pose proof (Cnorm2_nonneg n21).
  assert (Hden : 0 < Cnorm2 den) by lra.
  pose proof (Cdiv_nz n11 den ltac:(lra)) as E1.
  pose proof (Cdiv_nz n21 den ltac:(lra)) as E2.
  rewrite E1. cbn [bind]. rewrite E2. cbn [bind].
  do 2 eexists. split; [reflexivity |].
  rewrite (Cnorm2_Cdiv _ _ _ E1), (Cnorm2_Cdiv _ _ _ E2).
  replace (Cnorm2 n11 / Cnorm2 den + Cnorm2 n21 / Cnorm2 den)
    with ((Cnorm2 n11 + Cnorm2 n21) / Cnorm2 den) by (field; lra).
  apply Rmult_lt_reg_r with (Cnorm2 den); [assumption |].
  unfold Rdiv. rewrite Rmult_assoc, Rinv_l by lra. lra.
Qed.

Lemma combine_map {A B D : Type} (f : A -> B) (g : A -> D) (l : list A) :
  combine (map f l) (map g l) = map (fun a => (f a, g a)) l.
Proof. induction l as [| a l IH]; cbn [map combine]; [reflexivity | now rewrite IH]. Qed.

(** X4: [analyze_lossless] never finds the line lossless: on every physical line
    of positive length, with a loss tangent that is not negative, the power
    sum [|S11|^2 + |S21|^2] it returns is below 1 at every positive frequency
    of the sweep, and the array has one entry per sample. *)
Theorem power_sum_below_one (self : Microstrip.MicrostripAnalysis)
  (w length fi : R) (i : nat) :
  0 < w -> 0 < Microstrip.h self -> 1 < Microstrip.er self ->
  0 < Microstrip.c self -> 0 <= Microstrip.tand self -> 0 < length ->
  nth_error (Microstrip.f self) i = Some fi -> 0 < fi ->
  exists power_sum,
    fst (Microstrip.analyze_lossless self w length) = Ret power_sum /\
    List.length power_sum = List.length (Microstrip.f self) /\
    exists p, nth_error power_sum i = Some (Ret p) /\ 0 <= p < 1.
Proof.
  intros Hw Hh Her Hc Ht Hl Hi Hf.
  destruct (forward_positive self w Hw Hh Her) as (Z0 & eff & Hp & HZ & He).
  pose proof (calc_microstrip_params_frame self w) as (Ft & Ff & Fc).
  pose proof (calc_s_parameters_result self w length) as Hres.
  rewrite Hp in Hres. cbn [bind fst snd] in Hres.
  unfold Microstrip.analyze_lossless.
  destruct (Microstrip.calc_s_parameters self w length) as [o st].
  cbn [fst] in Hres. subst o. cbn [fst].
  eexists. split; [reflexivity |].
  rewrite combine_map, map_map, length_map, length_map, Ff.
  split; [reflexivity |].
  rewrite !nth_error_map, Hi. cbn [option_map].
  destruct (line_sample_power (snd (Microstrip.calc_microstrip_params self w))
              Z0 eff length fi) as (S11 & S21 & Hs & Hlt); try lra; try congruence.
  rewrite Hs. cbn [Microstrip.sample_fst Microstrip.sample_snd bind fst snd
                   Microstrip.power_sample].
  eexists. split; [reflexivity |].
  rewrite !Cmod_sq.
  pose proof (Cnorm2_nonneg S11). pose proof (Cnorm2_nonneg S21). lra.
Qed.

Lemma power_sum_below_one_witness :
  exists power_sum,
    fst (Microstrip.analyze_lossless
           (Microstrip.init 4.4 1.6e-3 0.025 (1e9, 10e9, 10%nat)) 2e-3 10e-3) =
      Ret power_sum /\
    List.length power_sum =
      List.length (Microstrip.f (Microstrip.init 4.4 1.6e-3 0.025 (1e9, 10e9, 10%nat))) /\
    exists p, nth_error power_sum 0 = Some (Ret p) /\ 0 <= p < 1.
Proof.
  apply (power_sum_below_one
           (Microstrip.init 4.4 1.6e-3 0.025 (1e9, 10e9, 10%nat)) 2e-3 10e-3 1e9 0);
    cbn [Microstrip.init Microstrip.h Microstrip.er Microstrip.c Microstrip.f
         Microstrip.tand];
    try (unfold constants_c; lra).
  cbn [np_linspace seq map nth_error]. f_equal. simpl INR. lra.
Defined.

(** ** The response of the stepped filter *)

Lemma high_section_power (er h tand Z fi : R) :
  0 < Z ->
  exists s,
    LPF.high_section (LPF.init er h tand) Z fi = Ret s /\
    Cnorm2 s = Response.high_power Z fi.
Proof.
  intros HZ. unfold LPF.high_section. cbn [LPF.init LPF.Z0].
  set (den := Cadd _ _).
  assert (Hn : Cnorm2 den = (Z + 2 * 50) ^ 2 + (2 * PI * fi * 1e-9) ^ 2).
  { unfold den, Cnorm2, Cadd, Cmul, Ci, RtoC; cbn [Re Im]. ring. }
  assert (Hpos : 0 < Cnorm2 den).
  { rewrite Hn. pose proof (pow2_ge_0 (2 * PI * fi * 1e-9)).
    assert (0 < (Z + 2 * 50) ^ 2) by (apply pow_lt; lra). lra. }
  pose proof (Cdiv_nz (RtoC (2 * 50)) den ltac:(lra)) as E.
  eexists. split; [exact E |].
  rewrite (Cnorm2_Cdiv _ _ _ E), Hn. unfold Response.high_power.
  f_equal. unfold Cnorm2, RtoC; cbn [Re Im]. ring.
Qed.

Lemma low_section_power (er h tand Z fi : R) :
  0 < Z -> fi <> 0 ->
  exists s,
    LPF.low_section (LPF.init er h tand) Z fi = Ret s /\
    Cnorm2 s = Response.low_power Z fi.
Proof.
  intros HZ Hf. unfold LPF.low_section. cbn [LPF.init LPF.Z0].
  pose proof PI_RGT_0 as Hpi.
  assert (Hu : 2 * PI * fi * 1e-12 <> 0).
  { intros H0. apply (Rmult_integral_contrapositive_currified PI fi); [lra | exact Hf |].
    lra. }
  rewrite np_div_nz by assumption. cbn [bind].
  rewrite np_div_nz by lra. cbn [bind].
  set (u := 2 * PI * fi * 1e-12) in *.
  assert (HXC : -1 / u <> 0).
  { unfold Rdiv. apply Rmult_integral_contrapositive_currified; [lra |].
    now apply Rinv_neq_0_compat. }
  assert (Hn1 : Cnorm2 (RtoC (-1 / u)) = (-1 / u) * (-1 / u)).
  { unfold Cnorm2, RtoC; cbn [Re Im]. ring. }
  rewrite Cdiv_nz by (rewrite Hn1; nra). cbn [bind].
  assert (Hn2 : Cnorm2 (RtoC 2) = 4).
  { unfold Cnorm2, RtoC; cbn [Re Im]. ring. }
  rewrite Cdiv_nz by (rewrite Hn2; lra). cbn [bind].
  set (den := Cadd (RtoC 1) _).
  assert (Hn : Cnorm2 den = (1 + 50 / (2 * Z)) ^ 2 + (50 * u / 2) ^ 2).
  { unfold den. rewrite Hn1, Hn2.
    unfold Cnorm2, Cadd, Cmul, Ci, RtoC; cbn [Re Im]. field. lra. }
  assert (Hpos : 0 < Cnorm2 den).
  { rewrite Hn. pose proof (pow2_ge_0 (50 * u / 2)).
    assert (0 < 50 / (2 * Z)) by (apply Rdiv_lt_0_compat; lra).
    assert (0 < (1 + 50 / (2 * Z)) ^ 2) by (apply pow_lt; lra). lra. }
  pose proof (Cdiv_nz (RtoC 1) den ltac:(lra)) as E.
  eexists. split; [exact E |].
  rewrite (Cnorm2_Cdiv _ _ _ E), Hn. unfold Response.low_power.
  f_equal. unfold Cnorm2, RtoC; cbn [Re Im]. ring.
Qed.

Lemma apply_sections_power (section : R -> outcome C) (P : R -> R) (Zs : list R) :
  Forall (fun Z => exists s, section Z = Ret s /\ Cnorm2 s = P Z) Zs ->
  forall acc, exists t,
    LPF.apply_sections section Zs acc = Ret t /\
    Cnorm2 t = Cnorm2 acc * Response.product P Zs.
Proof.
  induction 1 as [| Z Zs (s & Hs & Hp) _ IH]; intros acc;
    cbn [LPF.apply_sections Response.product fold_right].
  - exists acc. split; [reflexivity | ring].
  - rewrite Hs. cbn [bind].
    destruct (IH (Cmul acc s)) as (t & Ht & Hn).
    exists t. split; [exact Ht |].
    rewrite Hn, Cnorm2_Cmul, Hp. unfold Response.product. ring.
Qed.

(** A sample of the response on a design of positive impedances: it is a
    finite complex number whose squared modulus is the product of the
    section powers. *)
Lemma lpf_sample_power (er h tand : R) (d : LPF.Design) (fi : R) :
  Forall (fun Z => 0 < Z) (LPF.Z_high d) -> Forall (fun Z => 0 < Z) (LPF.Z_low d) ->
  fi <> 0 ->
  exists t,
    LPF.lpf_sample (LPF.init er h tand) d fi = Ret t /\
    Cnorm2 t = Response.power d fi.
Proof.
  intros Hh Hl Hf. unfold LPF.lpf_sample.
  destruct (apply_sections_power
              (fun Z => LPF.high_section (LPF.init er h tand) Z fi)
              (fun Z => Response.high_power Z fi) (LPF.Z_high d)) with (acc := RtoC 1)
    as (t1 & Ht1 & Hn1).
  { eapply Forall_impl; [| exact Hh]. cbv beta. intros Z HZ.
    now apply high_section_power. }
  rewrite Ht1. cbn [bind].
  destruct (apply_sections_power
              (fun Z => LPF.low_section (LPF.init er h tand) Z fi)
              (fun Z => Response.low_power Z fi) (LPF.Z_low d)) with (acc := t1)
    as (t2 & Ht2 & Hn2).
  { eapply Forall_impl; [| exact Hl]. cbv beta. intros Z HZ.
    now apply low_section_power. }
  exists t2. split; [exact Ht2 |].
  rewrite Hn2, Hn1. unfold Response.power.
  replace (Cnorm2 (RtoC 1)) with 1 by (unfold Cnorm2, RtoC; cbn [Re Im]; ring).
  ring.
Qed.

Lemma high_power_bounds (Z f1 f2 : R) :
  0 < Z -> 0 <= f1 -> f1 <= f2 ->
  0 < Response.high_power Z f2 /\
  Response.high_power Z f2 <= Response.high_power Z f1 /\
  Response.high_power Z f1 < 1.
Proof.
  intros HZ H1 H12. unfold Response.high_power. pose proof PI_RGT_0 as Hpi.
  set (x1 := 2 * PI * f1 * 1e-9). set (x2 := 2 * PI * f2 * 1e-9).
  assert (Hx : 0 <= x1 <= x2) by (unfold x1, x2; split; nra).
  assert (Hd1 : (2 * 50) ^ 2 < (Z + 2 * 50) ^ 2 + x1 ^ 2) by nra.
  assert (Hd2 : (Z + 2 * 50) ^ 2 + x1 ^ 2 <= (Z + 2 * 50) ^ 2 + x2 ^ 2) by nra.
  assert (Hn : 0 < (2 * 50) ^ 2) by lra.
  split; [apply Rdiv_lt_0_compat; lra |]. split.
  - unfold Rdiv. apply Rmult_le_compat_l; [lra |].
    apply Rinv_le_contravar; lra.
  - apply Rmult_lt_reg_r with ((Z + 2 * 50) ^ 2 + x1 ^ 2); [lra |].
    unfold Rdiv. rewrite Rmult_assoc, Rinv_l by lra. lra.
Qed.

Lemma low_power_bounds (Z f1 f2 : R) :
  0 < Z -> 0 <= f1 -> f1 <= f2 ->
  0 < Response.low_power Z f2 /\
  Response.low_power Z f2 <= Response.low_power Z f1 /\
  Response.low_power Z f1 < 1.
Proof.
  intros HZ H1 H12. unfold Response.low_power. pose proof PI_RGT_0 as Hpi.
  set (x1 := 50 * (2 * PI * f1 * 1e-12) / 2). set (x2 := 50 * (2 * PI * f2 * 1e-12) / 2).
  assert (Hx : 0 <= x1 <= x2) by (unfold x1, x2; split; nra).
  assert (Hq : 0 < 50 / (2 * Z)) by (apply Rdiv_lt_0_compat; lra).
  set (q := 50 / (2 * Z)) in *.
  assert (Hd1 : 1 < (1 + q) ^ 2 + x1 ^ 2) by nra.
  assert (Hd2 : (1 + q) ^ 2 + x1 ^ 2 <= (1 + q) ^ 2 + x2 ^ 2) by nra.
  split; [apply Rdiv_lt_0_compat; lra |]. split.
  - unfold Rdiv. apply Rmult_le_compat_l; [lra |].
    apply Rinv_le_contravar; lra.
  - apply Rmult_lt_reg_r with ((1 + q) ^ 2 + x1 ^ 2); [lra |].
    unfold Rdiv. rewrite Rmult_assoc, Rinv_l by lra. lra.
Qed.

Lemma product_bounds (P1 P2 : R -> R) (Zs : list R) :
  Forall (fun Z => 0 < P2 Z /\ P2 Z <= P1 Z /\ P1 Z < 1) Zs ->
  0 < Response.product P2 Zs /\
  Response.product P2 Zs <= Response.product P1 Zs /\
  Response.product P1 Zs <= 1.
Proof.
  induction 1 as [| Z Zs (Hp & Hle & Hlt) _ (IH1 & IH2 & IH3)];
    cbn [Response.product fold_right].
  - lra.
  - fold (Response.product P1 Zs). fold (Response.product P2 Zs).
    repeat split; nra.
Qed.

Lemma power_bounds (d : LPF.Design) (f1 f2 : R) :
  Forall (fun Z => 0 < Z) (LPF.Z_high d) -> Forall (fun Z => 0 < Z) (LPF.Z_low d) ->
  0 <= f1 -> f1 <= f2 ->
  0 < Response.power d f2 /\ Response.power d f2 <= Response.power d f1 /\
  Response.power d f1 <= 1.
Proof.
  intros Hh Hl H1 H12. unfold Response.power.
  destruct (product_bounds (fun Z => Response.high_power Z f1)
              (fun Z => Response.high_power Z f2) (LPF.Z_high d)) as (A1 & A2 & A3).
  { eapply Forall_impl; [| exact Hh]. cbv beta. intros Z HZ.
    now apply high_power_bounds. }
  destruct (product_bounds (fun Z => Response.low_power Z f1)
              (fun Z => Response.low_power Z f2) (LPF.Z_low d)) as (B1 & B2 & B3).
  { eapply Forall_impl; [| exact Hl]. cbv beta. intros Z HZ.
    now apply low_power_bounds. }
  repeat split; nra.
Qed.

(** X8: the response [calc_lpf_response] computes for a design of positive
    impedances is passive and low-pass: at every two samples of the sweep
    with [0 < f_i <= f_j] the transmission is a finite complex number at both,
    [|S21|] at [f_j] is positive and not above [|S21|] at [f_i], which is not
    above 1; and [S11] is [1 - S21] at each. *)
Theorem lpf_response_low_pass (er h tand : R) (d : LPF.Design)
  (f_range : R * R * nat) (i j : nat) (fi fj : R) :
  Forall (fun Z => 0 < Z) (LPF.Z_high d) -> Forall (fun Z => 0 < Z) (LPF.Z_low d) ->
  nth_error (fst (fst (LPF.calc_lpf_response (LPF.init er h tand) d f_range))) i = Some fi ->
  nth_error (fst (fst (LPF.calc_lpf_response (LPF.init er h tand) d f_range))) j = Some fj ->
  0 < fi -> fi <= fj ->
  exists ti tj,
    nth_error (snd (LPF.calc_lpf_response (LPF.init er h tand) d f_range)) i = Some (Ret ti) /\
    nth_error (snd (LPF.calc_lpf_response (LPF.init er h tand) d f_range)) j = Some (Ret tj) /\
    nth_error (snd (fst (LPF.calc_lpf_response (LPF.init er h tand) d f_range))) i =
      Some (Ret (Csub (RtoC 1) ti)) /\
    nth_error (snd (fst (LPF.calc_lpf_response (LPF.init er h tand) d f_range))) j =
      Some (Ret (Csub (RtoC 1) tj)) /\
    0 < Cnorm2 tj /\ Cnorm2 tj <= Cnorm2 ti /\ Cnorm2 ti <= 1.
Proof.
  intros Hh Hl Hi Hj Hpos Hij.
  destruct f_range as [[f0 f1] num].
  unfold LPF.calc_lpf_response in *. cbn [fst snd] in *.
  destruct (lpf_sample_power er h tand d fi Hh Hl ltac:(lra)) as (ti & Hti & Hni).
  destruct (lpf_sample_power er h tand d fj Hh Hl ltac:(lra)) as (tj & Htj & Hnj).
  exists ti, tj.
  rewrite !nth_error_map, Hi, Hj. cbn [option_map]. rewrite Hti, Htj. cbn [bind].
  repeat split; try reflexivity; rewrite ?Hni, ?Hnj;
    apply (power_bounds d fi fj); assumption || lra.
Qed.

Lemma question_9_design_returned :
  LPF.design_stepped_lpf LPF.default 3e9 5 = Ret question_9_design.
Proof. apply design_stepped_lpf_value; [lra | lra | lia]. Qed.

Lemma Z_low_pos (gi : R) : 0 <= gi -> 0 < Stepped.Z_low 50 gi.
Proof.
  intros Hg. unfold Stepped.Z_low. pose proof PI_bounds.
  assert (1 <= sqrt (1 + gi * (PI / 2) * (50 / 50))) by (apply sqrt_lower; nra).
  apply Rdiv_lt_0_compat; lra.
Qed.

Lemma impedances_positive (n : Z) :
  (n <= 6)%Z ->
  Forall (fun Z => 0 < Z) (Stepped.high_impedances n) /\
  Forall (fun Z => 0 < Z) (Stepped.low_impedances n).
Proof.
  intros Hn.
  assert (Hrange : forall i, In i (py_range 1 (n + 1)) -> (1 <= i <= 6)%Z).
  { intros i Hi. pose proof (py_range_bounds 1 (n + 1)) as Hb.
    rewrite Forall_forall in Hb. apply Hb in Hi. lia. }
  unfold Stepped.high_impedances, Stepped.low_impedances.
  split; apply Forall_forall; intros z Hz;
    apply in_map_iff in Hz as (i & <- & Hi); apply filter_In in Hi as [Hi _];
    apply Hrange in Hi; destruct (py_getitem_g i Hi) as [_ Hg].
  - pose proof (Z_high_ge_50 _ Hg). lra.
  - now apply Z_low_pos.
Qed.

Lemma lpf_response_low_pass_witness :
  exists ti tj,
    nth_error (snd (LPF.calc_lpf_response LPF.default question_9_design
                      (0.1e9, 6e9, 10%nat))) 0 = Some (Ret ti) /\
    nth_error (snd (LPF.calc_lpf_response LPF.default question_9_design
                      (0.1e9, 6e9, 10%nat))) 9 = Some (Ret tj) /\
    nth_error (snd (fst (LPF.calc_lpf_response LPF.default question_9_design
                           (0.1e9, 6e9, 10%nat)))) 0 = Some (Ret (Csub (RtoC 1) ti)) /\
    nth_error (snd (fst (LPF.calc_lpf_response LPF.default question_9_design
                           (0.1e9, 6e9, 10%nat)))) 9 = Some (Ret (Csub (RtoC 1) tj)) /\
    0 < Cnorm2 tj /\ Cnorm2 tj <= Cnorm2 ti /\ Cnorm2 ti <= 1.
Proof.
  apply (lpf_response_low_pass 4.4 1.6e-3 0.025 question_9_design
           (0.1e9, 6e9, 10%nat) 0 9 0.1e9 6e9).
  - apply (impedances_positive 5). lia.
  - apply (impedances_positive 5). lia.
  - cbn [LPF.calc_lpf_response fst np_linspace seq map nth_error].
    f_equal. simpl INR. lra.
  - cbn [LPF.calc_lpf_response fst np_linspace seq map nth_error].
    f_equal. simpl INR. lra.
  - lra.
  - lra.
Defined.

(** ** What the cutoff frequency and the substrate change *)

Lemma calc_lpf_response_inputs (s1 s2 : LPF.LPFDesign) (d1 d2 : LPF.Design)
  (f_range : R * R * nat) :
  LPF.Z0 s1 = LPF.Z0 s2 -> LPF.Z_high d1 = LPF.Z_high d2 -> LPF.Z_low d1 = LPF.Z_low d2 ->
  LPF.calc_lpf_response s1 d1 f_range = LPF.calc_lpf_response s2 d2 f_range.
Proof.
  intros H0 Hh Hl. destruct f_range as [[f0 f1] num].
  unfold LPF.calc_lpf_response, LPF.lpf_sample, LPF.high_section, LPF.low_section.
  now rewrite H0, Hh, Hl.
Qed.

(** X7: the cutoff frequency and the substrate reach only the lengths and the
    widths of a design.  For two substrates and two cutoff frequencies the
    synthesizer returns the same impedance lists, [calc_lpf_response] returns
    the same response for both designs, and each section length is
    [c / (8 fc sqrt er)]; on one substrate the widths agree too. *)
Theorem cutoff_and_substrate_only_scale (er1 h1 tand1 fc1 er2 h2 tand2 fc2 : R) (n : Z)
  (f_range : R * R * nat) :
  1 < er1 -> 1 < er2 -> fc1 <> 0 -> fc2 <> 0 -> (n <= 6)%Z ->
  exists d1 d2,
    LPF.design_stepped_lpf (LPF.init er1 h1 tand1) fc1 n = Ret d1 /\
    LPF.design_stepped_lpf (LPF.init er2 h2 tand2) fc2 n = Ret d2 /\
    LPF.Z_high d1 = LPF.Z_high d2 /\ LPF.Z_low d1 = LPF.Z_low d2 /\
    LPF.calc_lpf_response (LPF.init er1 h1 tand1) d1 f_range =
      LPF.calc_lpf_response (LPF.init er2 h2 tand2) d2 f_range /\
    LPF.section_length d1 * (8 * fc1 * sqrt er1) = constants_c /\
    LPF.section_length d2 * (8 * fc2 * sqrt er2) = constants_c /\
    LPF.lambda_g d1 = 8 * LPF.section_length d1 /\
    (er1 = er2 -> h1 = h2 ->
     LPF.widths_high d1 = LPF.widths_high d2 /\ LPF.widths_low d1 = LPF.widths_low d2).
Proof.
  intros Her1 Her2 Hf1 Hf2 Hn.
  rewrite !design_stepped_lpf_value by assumption.
  do 2 eexists. split; [reflexivity |]. split; [reflexivity |].
  cbn [LPF.Z_high LPF.Z_low LPF.widths_high LPF.widths_low LPF.section_length LPF.lambda_g].
  assert (0 < sqrt er1) by (apply sqrt_lt_R0; lra).
  assert (0 < sqrt er2) by (apply sqrt_lt_R0; lra).
  split; [reflexivity |]. split; [reflexivity |].
  split; [now apply calc_lpf_response_inputs |].
  split; [field; split; lra |]. split; [field; split; lra |].
  split; [field; split; lra |].
  intros -> ->. split; reflexivity.
Qed.

Lemma cutoff_and_substrate_only_scale_witness :
  exists d1 d2,
    LPF.design_stepped_lpf (LPF.init 4.4 1.6e-3 0.025) 3e9 5 = Ret d1 /\
    LPF.design_stepped_lpf (LPF.init 2.2 0.8e-3 0.001) 1e9 5 = Ret d2 /\
    LPF.Z_high d1 = LPF.Z_high d2 /\ LPF.Z_low d1 = LPF.Z_low d2 /\
    LPF.calc_lpf_response (LPF.init 4.4 1.6e-3 0.025) d1 (0.1e9, 6e9, 1000%nat) =
      LPF.calc_lpf_response (LPF.init 2.2 0.8e-3 0.001) d2 (0.1e9, 6e9, 1000%nat) /\
    LPF.section_length d1 * (8 * 3e9 * sqrt 4.4) = constants_c /\
    LPF.section_length d2 * (8 * 1e9 * sqrt 2.2) = constants_c /\
    LPF.lambda_g d1 = 8 * LPF.section_length d1 /\
    (4.4 = 2.2 -> 1.6e-3 = 0.8e-3 ->
     LPF.widths_high d1 = LPF.widths_high d2 /\ LPF.widths_low d1 = LPF.widths_low d2).
Proof.
  apply (cutoff_and_substrate_only_scale 4.4 1.6e-3 0.025 3e9 2.2 0.8e-3 0.001 1e9 5
           (0.1e9, 6e9, 1000%nat)); try lra. lia.
Defined.

(** X9: an order below 1 gives a design without sections, and the response of
    such a design is flat: [S21 = 1] and [S11 = 0] at every sample. *)
Theorem empty_design_all_pass (er h tand fc : R) (n : Z) (f_range : R * R * nat) (i : nat) :
  1 < er -> fc <> 0 -> (n <= 0)%Z ->
  (i < snd f_range)%nat ->
  exists d,
    LPF.design_stepped_lpf (LPF.init er h tand) fc n = Ret d /\
    LPF.Z_high d = [] /\ LPF.Z_low d = [] /\
    LPF.widths_high d = [] /\ LPF.widths_low d = [] /\
    exists fi,
      nth_error (fst (fst (LPF.calc_lpf_response (LPF.init er h tand) d f_range))) i = Some fi /\
      nth_error (snd (LPF.calc_lpf_response (LPF.init er h tand) d f_range)) i =
        Some (Ret (RtoC 1)) /\
      nth_error (snd (fst (LPF.calc_lpf_response (LPF.init er h tand) d f_range))) i =
        Some (Ret (Csub (RtoC 1) (RtoC 1))) /\
      Csub (RtoC 1) (RtoC 1) = RtoC 0.
Proof.
  intros Her Hfc Hn Hi.
  rewrite design_stepped_lpf_value by (try assumption; lia).
  assert (Hh : Stepped.high_impedances n = []).
  { unfold Stepped.high_impedances, py_range.
    replace (Z.to_nat (n + 1 - 1)) with 0%nat by lia. reflexivity. }
  assert (Hl : Stepped.low_impedances n = []).
  { unfold Stepped.low_impedances, py_range.
    replace (Z.to_nat (n + 1 - 1)) with 0%nat by lia. reflexivity. }
  rewrite Hh, Hl. eexists. split; [reflexivity |].
  cbn [LPF.Z_high LPF.Z_low LPF.widths_high LPF.widths_low map].
  repeat (split; [reflexivity |]).
  destruct f_range as [[f0 f1] num]. cbn [snd] in Hi.
  unfold LPF.calc_lpf_response. cbn [fst snd].
  assert (Hlen : List.length (np_linspace f0 f1 num) = num).
  { unfold np_linspace. destruct num as [| [| k]]; cbn [List.length]; try reflexivity.
    now rewrite length_map, length_seq. }
  destruct (nth_error (np_linspace f0 f1 num) i) as [fi |] eqn:Hfi.
  - exists fi. split; [reflexivity |].
    rewrite !nth_error_map, Hfi. cbn [option_map].
    unfold LPF.lpf_sample. cbn [LPF.Z_high LPF.Z_low LPF.apply_sections bind].
    repeat split; try reflexivity.
    unfold Csub, RtoC; cbn [Re Im]. f_equal; ring.
  - apply nth_error_None in Hfi. lia.
Qed.

Lemma empty_design_all_pass_witness :
  exists d,
    LPF.design_stepped_lpf (LPF.init 4.4 1.6e-3 0.025) 3e9 0 = Ret d /\
    LPF.Z_high d = [] /\ LPF.Z_low d = [] /\
    LPF.widths_high d = [] /\ LPF.widths_low d = [] /\
    exists fi,
      nth_error (fst (fst (LPF.calc_lpf_response (LPF.init 4.4 1.6e-3 0.025) d
                             (0.1e9, 6e9, 1000%nat)))) 999 = Some fi /\
      nth_error (snd (LPF.calc_lpf_response (LPF.init 4.4 1.6e-3 0.025) d
                        (0.1e9, 6e9, 1000%nat))) 999 = Some (Ret (RtoC 1)) /\
      nth_error (snd (fst (LPF.calc_lpf_response (LPF.init 4.4 1.6e-3 0.025) d
                             (0.1e9, 6e9, 1000%nat)))) 999 =
        Some (Ret (Csub (RtoC 1) (RtoC 1))) /\
      Csub (RtoC 1) (RtoC 1) = RtoC 0.
Proof.
  apply (empty_design_all_pass 4.4 1.6e-3 0.025 3e9 0 (0.1e9, 6e9, 1000%nat) 999);
    try lra; cbn [snd]; lia.
Defined.

(** ** The inverse formula above 44 ohm *)

(** X6: for target impedances from 44 ohm on, [calc_microstrip_width] returns a
    positive width that strictly decreases as the impedance grows. *)
Theorem calc_microstrip_width_decreasing (er h tand Za Zb : R) :
  1 < er -> 0 < h -> 44 <= Za -> Za < Zb ->
  exists wa wb,
    LPF.calc_microstrip_width (LPF.init er h tand) Za = Ret wa /\
    LPF.calc_microstrip_width (LPF.init er h tand) Zb = Ret wb /\
    0 < wb /\ wb < wa.
Proof.
  intros Her Hh Ha Hab.
  rewrite !calc_microstrip_width_ge_44 by lra.
  do 2 eexists. split; [reflexivity |]. split; [reflexivity |]. split.
  - apply narrow_pos; lra.
  - now apply narrow_decreasing.
Qed.

Lemma calc_microstrip_width_decreasing_witness :
  exists wa wb,
    LPF.calc_microstrip_width (LPF.init 4.4 1.6e-3 0.025) 50 = Ret wa /\
    LPF.calc_microstrip_width (LPF.init 4.4 1.6e-3 0.025) 75 = Ret wb /\
    0 < wb /\ wb < wa.
Proof.
  apply (calc_microstrip_width_decreasing 4.4 1.6e-3 0.025 50 75); lra.
Defined.

(** ** The resonator: length, model identity, and the 8 GHz dimensions *)

(** X10: the quarter-wave length is positive, inversely proportional to the
    frequency ([4 length f_res sqrt(eff_er) = c]), and the effective
    permittivity it is computed with does not depend on the frequency. *)
Theorem resonator_length_scaling (er h tand w f1 f2 : R) :
  0 < w -> 0 < h -> 0 < er -> 0 < f1 -> 0 < f2 ->
  exists l1 l2 eff_er,
    Resonator.calc_resonator_length (Resonator.init er h tand) f1 w = Ret (l1, eff_er) /\
    Resonator.calc_resonator_length (Resonator.init er h tand) f2 w = Ret (l2, eff_er) /\
    0 < l1 /\ 0 < eff_er /\
    4 * l1 * f1 * sqrt eff_er = constants_c /\
    l1 * f1 = l2 * f2.
Proof.
  intros Hw Hh Her H1 H2.
  rewrite !calc_resonator_length_value by (try assumption; lra).
  pose proof (resonator_eff_er_pos er h w Hw Hh Her) as He.
  pose proof (sqrt_lt_R0 _ He) as Hs.
  do 3 eexists. split; [reflexivity |]. split; [reflexivity |].
  set (s := sqrt (Hammerstad.eff_er_wide er h w)) in *.
  split.
  { unfold constants_c. apply Rdiv_lt_0_compat; [| lra].
    apply Rdiv_lt_0_compat; [lra | nra]. }
  split; [exact He |].
  split; field; lra.
Qed.

Lemma resonator_length_scaling_witness :
  exists l1 l2 eff_er,
    Resonator.calc_resonator_length Resonator.default 5e9 1e-3 = Ret (l1, eff_er) /\
    Resonator.calc_resonator_length Resonator.default 8e9 1e-3 = Ret (l2, eff_er) /\
    0 < l1 /\ 0 < eff_er /\
    4 * l1 * 5e9 * sqrt eff_er = constants_c /\
    l1 * 5e9 = l2 * 8e9.
Proof.
  apply (resonator_length_scaling 4.4 1.6e-3 0.025 1e-3 5e9 8e9); lra.
Defined.

Lemma resonator_sample_power (k f_res fi : R) :
  f_res <> 0 -> k <> 0 ->
  exists S11 S21,
    Resonator.resonator_sample k f_res fi = Ret (S11, S21) /\
    Cnorm2 S11 + Cnorm2 S21 / (k * k) = 1 /\
    Cnorm2 S21 <= k * k.
Proof.
  intros Hf Hk. unfold Resonator.resonator_sample.
  rewrite np_div_nz by assumption. cbn [bind].
  set (delta := (fi - f_res) / f_res).
  set (jQd := Cmul (Cmul Ci (RtoC Resonator.Q_total)) (RtoC delta)).
  assert (Hj : Cnorm2 jQd = (Resonator.Q_total * delta) * (Resonator.Q_total * delta)).
  { unfold jQd, Cnorm2, Cmul, Ci, RtoC; cbn [Re Im]. ring. }
  assert (Hn : Cnorm2 (Cadd (RtoC 1) jQd) =
               1 + (Resonator.Q_total * delta) * (Resonator.Q_total * delta)).
  { unfold jQd, Cnorm2, Cadd, Cmul, Ci, RtoC; cbn [Re Im]. ring. }
  set (q := Resonator.Q_total * delta) in *.
  assert (Hpos : 0 < Cnorm2 (Cadd (RtoC 1) jQd)) by (rewrite Hn; nra).
  pose proof (Cdiv_nz jQd (Cadd (RtoC 1) jQd) ltac:(lra)) as E1.
  pose proof (Cdiv_nz (RtoC k) (Cadd (RtoC 1) jQd) ltac:(lra)) as E2.
  rewrite E1. cbn [bind]. rewrite E2. cbn [bind].
  do 2 eexists. split; [reflexivity |].
  rewrite (Cnorm2_Cdiv _ _ _ E1), (Cnorm2_Cdiv _ _ _ E2), Hj, Hn.
  replace (Cnorm2 (RtoC k)) with (k * k) by (unfold Cnorm2, RtoC; cbn [Re Im]; ring).
  assert (Hq : 0 < 1 + q * q) by nra.
  split.
  - field. split; lra.
  - apply Rmult_le_reg_r with (1 + q * q); [assumption |].
    unfold Rdiv. rewrite Rmult_assoc, Rinv_l by lra. nra.
Qed.

(** X11: at every sample of the sweep the single-pole model conserves power up to
    the coupling: [|S11|^2 + |S21|^2 / k^2 = 1], so [|S21|] never exceeds the
    coupling coefficient [k = 0.1 exp(-g/h)], which is positive and at most
    0.1 for a gap that is not negative. *)
Theorem resonator_power_identity (er h tand d g w : R) (f_range : R * R * nat)
  (i : nat) (fi : R) :
  0 < w -> 0 < h -> 0 < er ->
  nth_error (np_linspace (fst (fst f_range)) (snd (fst f_range)) (snd f_range)) i = Some fi ->
  let k := Resonator.coupling (Resonator.init er h tand) g in
  exists f S11 S21 f_res length a b,
    Resonator.calc_resonator_s_params (Resonator.init er h tand) d g w f_range =
      Ret (f, S11, S21, f_res, length) /\
    nth_error f i = Some fi /\
    nth_error S11 i = Some (Ret a) /\ nth_error S21 i = Some (Ret b) /\
    Cnorm2 a + Cnorm2 b / (k * k) = 1 /\
    Cnorm2 b <= k * k /\
    0 < k /\ (0 <= g -> k <= 0.1).
Proof.
  intros Hw Hh Her Hi k.
  assert (Hk : 0 < k).
  { unfold k, Resonator.coupling. pose proof (exp_pos (- g / Resonator.h (Resonator.init er h tand))).
    lra. }
  rewrite calc_resonator_s_params_value by assumption. cbv zeta. fold k.
  destruct (resonator_sample_power k 5e9 fi ltac:(lra) ltac:(lra)) as (a & b & Hs & Hid & Hle).
  do 5 eexists. exists a, b. split; [reflexivity |].
  split; [exact Hi |].
  rewrite !nth_error_map, Hi. cbn [option_map]. rewrite Hs.
  cbn [Microstrip.sample_fst Microstrip.sample_snd bind fst snd].
  repeat split; try assumption.
  intros Hg. unfold k, Resonator.coupling. cbn [Resonator.init Resonator.h].
  assert (exp (- g / h) <= 1).
  { rewrite <- exp_0. apply exp_monotone.
    assert (0 <= g / h) by (apply Rmult_le_pos; [lra | left; now apply Rinv_0_lt_compat]).
    unfold Rdiv in *. lra. }
  lra.
Qed.

Lemma resonator_power_identity_witness :
  let k := Resonator.coupling Resonator.default 0.05e-3 in
  exists f S11 S21 f_res length a b,
    Resonator.calc_resonator_s_params Resonator.default 6e-3 0.05e-3 1e-3
      (1e9, 10e9, 10%nat) = Ret (f, S11, S21, f_res, length) /\
    nth_error f 0 = Some 1e9 /\
    nth_error S11 0 = Some (Ret a) /\ nth_error S21 0 = Some (Ret b) /\
    Cnorm2 a + Cnorm2 b / (k * k) = 1 /\
    Cnorm2 b <= k * k /\
    0 < k /\ (0 <= 0.05e-3 -> k <= 0.1).
Proof.
  apply (resonator_power_identity 4.4 1.6e-3 0.025 6e-3 0.05e-3 1e-3
           (1e9, 10e9, 10%nat) 0 1e9); try lra.
  cbn [fst snd np_linspace seq map nth_error]. f_equal. simpl INR. lra.
Defined.

(** X12: the dimensions found for 8 GHz: the resonator length [d_opt] is the
    quarter-wave length at 8 GHz and the gap is 0.1 mm.  Given back to
    [calc_resonator_s_params], they do not resonate at 8 GHz: the returned
    frequency stays within a hertz of the 5 GHz nominal, with the returned
    length in the ratio 8 to 5 to [d_opt], and both pairs are quarter-wave
    pairs of the same line, [4 * length5 * f_res * sqrt eff_er = c]. *)
Theorem dimensions_8ghz_resonate_at_nominal (er h tand : R) (f_range : R * R * nat) :
  0 < h -> 0 < er ->
  exists d_opt g_opt length8 f S11 S21 f_res length5,
    Resonator.find_resonator_dimensions_8ghz (Resonator.init er h tand) =
      Ret (d_opt, g_opt, length8) /\
    d_opt = length8 /\ g_opt = 0.1e-3 /\
    4 * length8 * 8e9 * sqrt (Hammerstad.eff_er_wide er h 1e-3) = constants_c /\
    Resonator.calc_resonator_s_params (Resonator.init er h tand) d_opt g_opt 1e-3 f_range =
      Ret (f, S11, S21, f_res, length5) /\
    4 * length5 * f_res * sqrt (Hammerstad.eff_er_wide er h 1e-3) = constants_c /\
    8 * length8 = 5 * length5 /\
    Rabs (f_res - 5e9) < 1 /\ f_res < 8e9.
Proof.
  intros Hh Her.
  pose proof (resonator_eff_er_pos er h 1e-3 ltac:(lra) Hh Her) as He.
  pose proof (sqrt_lt_R0 _ He) as Hs.
  unfold Resonator.find_resonator_dimensions_8ghz.
  rewrite calc_resonator_length_value by (try assumption; lra). cbn [bind].
  do 3 eexists.
  rewrite calc_resonator_s_params_value by (try assumption; lra). cbv zeta.
  do 5 eexists. split; [reflexivity |].
  split; [reflexivity |]. split; [reflexivity |].
  set (s := sqrt (Hammerstad.eff_er_wide er h 1e-3)) in *.
  split; [unfold constants_c; field; lra |].
  split; [reflexivity |]. fold s.
  split; [unfold constants_c; field; lra |].
  split; [unfold constants_c; field; lra |].
  split; [| lra].
  replace (5e9 - 5e9) with 0 by lra. rewrite Rabs_R0. lra.
Qed.

Lemma dimensions_8ghz_resonate_at_nominal_witness :
  exists d_opt g_opt length8 f S11 S21 f_res length5,
    Resonator.find_resonator_dimensions_8ghz Resonator.default =
      Ret (d_opt, g_opt, length8) /\
    d_opt = length8 /\ g_opt = 0.1e-3 /\
    4 * length8 * 8e9 * sqrt (Hammerstad.eff_er_wide 4.4 1.6e-3 1e-3) = constants_c /\
    Resonator.calc_resonator_s_params Resonator.default d_opt g_opt 1e-3
      (1e9, 10e9, 1000%nat) = Ret (f, S11, S21, f_res, length5) /\
    4 * length5 * f_res * sqrt (Hammerstad.eff_er_wide 4.4 1.6e-3 1e-3) = constants_c /\
    8 * length8 = 5 * length5 /\
    Rabs (f_res - 5e9) < 1 /\ f_res < 8e9.
Proof.
  apply (dimensions_8ghz_resonate_at_nominal 4.4 1.6e-3 0.025 (1e9, 10e9, 1000%nat)); lra.
Defined.

(** ** The matched line as the script computes it *)

(** X5: when the forward calculation returns exactly 50 ohm, [calc_s_parameters]
    as written reports no reflection at any sample that is not negative, and
    a transmission of modulus [exp(-alpha length)], where [alpha] is the sum
    of the dielectric and the conductor loss terms; the modulus is below 1 as
    soon as the frequency and the length are positive. *)
Theorem matched_line_attenuation (self self' : Microstrip.MicrostripAnalysis)
  (w length eff fi : R) (i : nat) :
  0 < Microstrip.c self -> 0 <= Microstrip.tand self ->
  Microstrip.calc_microstrip_params self w = (Ret (50, eff), self') ->
  nth_error (Microstrip.f self) i = Some fi -> 0 <= fi ->
  exists S11 S21 S12 S22 t,
    fst (Microstrip.calc_s_parameters self w length) = Ret (S11, S21, S12, S22, 50) /\
    nth_error S11 i = Some (Ret (RtoC 0)) /\
    nth_error S21 i = Some (Ret t) /\
    Cmod t = exp (- (alpha_of self eff fi * length)) /\
    (0 < fi -> 0 < length -> Cmod t < 1).
Proof.
  intros Hc Ht Hcall Hi Hf.
  pose proof (calc_microstrip_params_frame self w) as (Ft & Ff & Fc).
  pose proof (calc_microstrip_params_eff_nonneg _ _ _ _ _ Hcall) as He.
  rewrite calc_s_parameters_result, Hcall. cbn [bind fst snd].
  rewrite Hcall in Ft, Ff, Fc. cbn [snd] in Ft, Ff, Fc.
  do 4 eexists.
  exists (mkC (exp (- (alpha_of self eff fi * length)) * cos (- (beta_of self eff fi * length)))
              (exp (- (alpha_of self eff fi * length)) * sin (- (beta_of self eff fi * length)))).
  split; [reflexivity |].
  rewrite !nth_error_map, Ff, Hi. cbn [option_map].
  rewrite (line_sample_frame self' self) by assumption.
  rewrite line_sample_regular by lra. cbv zeta.
  replace ((50 - 50) / (50 + 50)) with 0 by lra.
  set (e := mkC _ _).
  assert (Hn : Cnorm2 (Csub (RtoC 1) (Cmul (RtoC (0 ^ 2)) (Cmul e e))) = 1).
  { unfold Cnorm2, Csub, Cmul, RtoC; cbn [Re Im]. ring. }
  rewrite !Cdiv_nz by (rewrite Hn; lra).
  cbn [bind Microstrip.sample_fst Microstrip.sample_snd fst snd]. rewrite Hn.
  split; [| split].
  - unfold Csub, Cmul, RtoC; cbn [Re Im]. do 3 f_equal; field.
  - unfold e, Csub, Cmul, RtoC; cbn [Re Im]. do 3 f_equal; field.
  - split; [apply Cmod_phasor; left; apply exp_pos |].
    intros Hfi Hl. unfold e. rewrite Cmod_phasor by (left; apply exp_pos).
    rewrite <- exp_0. apply exp_increasing.
    assert (0 < alpha_of self eff fi).
    { unfold alpha_of. pose proof PI_RGT_0. pose proof (sqrt_pos eff).
      pose proof (sqrt_lt_R0 fi Hfi).
      assert (0 <= PI * fi * sqrt eff * Microstrip.tand self / Microstrip.c self).
      { apply Rmult_le_pos; [| left; now apply Rinv_0_lt_compat].
        apply Rmult_le_pos; [apply Rmult_le_pos; [nra | lra] | lra]. }
      lra. }
    nra.
Qed.

Lemma matched_line_attenuation_witness :
  exists S11 S21 S12 S22 t,
    fst (Microstrip.calc_s_parameters matched_line 1.6e-3 10e-3) =
      Ret (S11, S21, S12, S22, 50) /\
    nth_error S11 0 = Some (Ret (RtoC 0)) /\
    nth_error S21 0 = Some (Ret t) /\
    Cmod t = exp (- (alpha_of matched_line
                       (Hammerstad.eff_er_wide matched_er 1.6e-3 1.6e-3) 1e9 * 10e-3)) /\
    (0 < 1e9 -> 0 < 10e-3 -> Cmod t < 1).
Proof.
  apply (matched_line_attenuation matched_line
           (Microstrip.set_Z0
              (Microstrip.set_eff_er matched_line
                 (Some (Hammerstad.eff_er_wide matched_er 1.6e-3 1.6e-3)))
              (Some 50))
           1.6e-3 10e-3 (Hammerstad.eff_er_wide matched_er 1.6e-3 1.6e-3) 1e9 0).
  - cbn [matched_line Microstrip.init Microstrip.c]. unfold constants_c. lra.
  - cbn [matched_line Microstrip.init Microstrip.tand]. lra.
  - exact matched_line_params.
  - cbn [matched_line Microstrip.init Microstrip.f np_linspace seq map nth_error].
    f_equal. simpl INR. lra.
  - lra.
Defined.

(** ** Exceptions of the resonator calculations *)



